(** * honeytrap-agent: start-up and lifecycle of the agent command

    A shallow embedding of [cmd/agent.go]: the flag table declared by [New],
    the configuration resolver [loadConfig], the validating option builder and
    orchestrator [serve], and the signal goroutine started by [serve].

    The command-line library, the TOML decoder, the colour/formatting helpers
    and the [server] package are collaborators.  Their observable contract is
    kept abstract in the record [Collab]; the parts of the libraries that the
    properties below depend on (flag lookup and assignment, decoding into the tagged
    struct, signal delivery on a buffered channel) are written out. *)

From stdpp Require Import gmap strings list fin_maps.
From Stdlib Require Import ZArith.

Local Open Scope Z_scope.

(** ** The command-line library: exit errors, flags, the flag set *)

(** [cli.ExitError]: a message and a process exit code. *)
Record ExitError := NewExitError { message : string; exitCode : Z }.

(** [cli.StringFlag].  The source writes the names as one comma separated
    string (["server, s"]); the library splits it, so the names are kept as a
    list here. *)
Record StringFlag := { Names : list string; Value : string; Usage : string }.

(** The flags appended to [app.Flags] by [New], in source order.  A flag
    declared without [Value] has Go's zero value, the empty string. *)
Definition New_Flags : list StringFlag :=
  [ {| Names := ["config"; "f"];     Value := "";
       Usage := "configuration from `FILE`" |};
    {| Names := ["server"; "s"];     Value := "";
       Usage := "server address" |};
    {| Names := ["remote-key"; "k"]; Value := "";
       Usage := "remote key of server" |};
    {| Names := ["data"; "d"];       Value := "~/.honeytrap-agent";
       Usage := "Store data in `DIR`" |};
    {| Names := ["name"; "n"];       Value := "";
       Usage := "agent name" |} ].

(** Registering a flag defines every one of its names with the default. *)
Definition Apply (f : StringFlag) (set : gmap string string) : gmap string string :=
  foldr (λ n s, <[n := Value f]> s) set (Names f).

Definition flagSet_of (flags : list StringFlag) : gmap string string :=
  foldr Apply ∅ flags.

(** [flag.FlagSet.Set]: assigning an undefined name is an error and changes
    nothing. *)
Definition flag_Set (name value : string) (set : gmap string string)
  : option (gmap string string) :=
  match set !! name with
  | Some _ => Some (<[name := value]> set)
  | None => None
  end.

(** [lookupString]: the value of a defined flag, the empty string otherwise. *)
Definition lookupString (name : string) (set : gmap string string) : string :=
  default "" (set !! name).

(** [flag.FlagSet.Parse] on a command line already split into
    (name, value) assignments: each assignment sets its flag and is recorded
    as visited; an undefined name stops the parse with an error. *)
Fixpoint flag_Parse (args : list (string * string)) (set : gmap string string)
    (visited : list string) : option (gmap string string * list string) :=
  match args with
  | [] => Some (set, visited)
  | (n, v) :: rest =>
      match flag_Set n v set with
      | Some set' => flag_Parse rest set' (n :: visited)
      | None => None
      end
  end.

(** [normalizeFlags] for one flag: using two spellings of one flag is an
    error; otherwise the value given under one spelling is copied to the
    others. *)
Definition normalizeFlag (visited : list string) (f : StringFlag)
    (set : gmap string string) : option (gmap string string) :=
  match filter (λ n, n ∈ visited) (Names f) with
  | [] => Some set
  | [n] => Some (foldr (λ m s, <[m := lookupString n set]> s) set (Names f))
  | _ => None
  end.

Fixpoint normalizeFlags (visited : list string) (flags : list StringFlag)
    (set : gmap string string) : option (gmap string string) :=
  match flags with
  | [] => Some set
  | f :: rest =>
      match normalizeFlag visited f set with
      | Some set' => normalizeFlags visited rest set'
      | None => None
      end
  end.

(** The flag set the hooks of the application see for a command line made of
    assignments to the flags [New] declares.  The switches the library adds on
    its own ([help], [version] and their short forms) and positional arguments
    are not part of this model: a command line that uses them is not covered,
    [parse_args] yields [None] for it as for one the library rejects. *)
Definition parse_args (args : list (string * string)) : option (gmap string string) :=
  match flag_Parse args (flagSet_of New_Flags) [] with
  | Some (set, visited) => normalizeFlags visited New_Flags set
  | None => None
  end.

(** The value the command line gives to a name: that of its last
    assignment, if there is one. *)
Fixpoint last_assign (m : string) (args : list (string * string)) : option string :=
  match args with
  | [] => None
  | (n, v) :: rest =>
      match last_assign m rest with
      | Some v' => Some v'
      | None => if decide (n = m) then Some v else None
      end
  end.


(** The value the user passed for a flag with a long and a short spelling,
    under either of them; [None] when the flag was not passed. *)
Definition flag_given (long short : string) (args : list (string * string))
  : option string :=
  match last_assign long args with
  | Some v => Some v
  | None => last_assign short args
  end.

(** All the names a list of flags declares. *)
Definition all_names (flags : list StringFlag) : list string :=
  flags ≫= Names.

(** ** The TOML document and the struct it is decoded into *)

(** A value of a TOML document.  Only strings fit the fields of the struct
    below; floats, dates, and tables and arrays (kept as one case) are there
    as kinds only, their contents play no part. *)
Inductive toml_value :=
| TString (s : string)
| TInteger (z : Z)
| TBool (b : bool)
| TFloat
| TDatetime
| TComposite.

(** The anonymous struct of [loadConfig]. *)
Record config := Config
  { Server : string; RemoteKey : string; DataDir : string; Name : string }.

(** The struct literal [{}]: every field has the zero value. *)
Definition config_zero : config := Config "" "" "" "".


Definition tags : list string := ["server"; "remote-key"; "data-dir"; "name"].

(** Storing a string in the field that carries a tag. *)
Definition with_field (tag s : string) (cfg : config) : config :=
  if decide (tag = "server") then Config s (RemoteKey cfg) (DataDir cfg) (Name cfg)
  else if decide (tag = "remote-key") then Config (Server cfg) s (DataDir cfg) (Name cfg)
  else if decide (tag = "data-dir") then Config (Server cfg) (RemoteKey cfg) s (Name cfg)
  else if decide (tag = "name") then Config (Server cfg) (RemoteKey cfg) (DataDir cfg) s
  else cfg.

(** ** Collaborators

    Everything [cmd/agent.go] calls and does not define: the colour and
    formatting helpers, the file system, the TOML parser, and the [server]
    package ([WithServer] ... [New], [Run]).  [Run] yields [None] when the call
    never returns and [Some r] when it returns with whatever value [r].

    Two things the decoder relies on are collaborators as well:
    [strings.EqualFold], by which it matches a key to a field when no tag is
    equal to the key, and the order in which this run ranges over the keys of
    a parsed document, a Go map: [map_range] is that order, about which
    nothing is known but that it visits every entry once. *)
Record Collab := {
  error : Type;
  Error : error → string;
  RedString : string → string;
  Errorf : string → string;
  os_Open : string → string + error;
  toml_parse : string → gmap string toml_value + error;
  toml_mismatch : string → toml_value → error;
  EqualFold : string → string → bool;
  map_range : gmap string toml_value → list (string * toml_value);
  map_range_perm : ∀ doc, map_range doc ≡ₚ map_to_list doc;
  OptionFn : Type;
  Agent : Type;
  WithServer : string → OptionFn;
  WithKey : string → OptionFn;
  WithName : string → OptionFn;
  WithDataDir : string → OptionFn + error;
  WithToken : OptionFn;
  server_New : list OptionFn → Agent + error;
  Run : Agent → option (option error)
}.

Section Program.

Variable K : Collab.

(** *** Decoding into the struct

    For each key of the parsed document the decoder looks for a field: it
    goes through the fields in the order of the struct, stops at one whose tag
    is equal to the key, and otherwise keeps the first one whose tag matches
    the key up to case.  A key with a field must hold a string, which is
    stored in the field; a key without one is skipped; a value of another
    type stops the decoding with an error, the fields stored so far staying
    as they are.  The keys are visited in the order of [map_range], so that
    with two keys for one field the later one wins. *)
Fixpoint find_field (key : string) (fields : list string) (f : option string)
  : option string :=
  match fields with
  | [] => f
  | ff :: rest =>
      if decide (ff = key) then Some ff
      else find_field key rest
             (match f with
              | None => if EqualFold K ff key then Some ff else None
              | Some _ => f
              end)
  end.

Definition field_for (key : string) : option string := find_field key tags None.

Definition set_field (k : string) (v : toml_value) (cfg : config) : config + error K :=
  match field_for k with
  | Some t =>
      match v with
      | TString s => inl (with_field t s cfg)
      | _ => inr (toml_mismatch K k v)
      end
  | None => inl cfg
  end.

Fixpoint unify (kvs : list (string * toml_value)) (cfg : config)
  : config * option (error K) :=
  match kvs with
  | [] => (cfg, None)
  | (k, v) :: rest =>
      match set_field k v cfg with
      | inl cfg' => unify rest cfg'
      | inr e => (cfg, Some e)
      end
  end.

(** [toml.DecodeReader(r, &config)]: the struct after the call and the error
    returned. *)
Definition DecodeReader (text : string) (cfg : config) : config * option (error K) :=
  match toml_parse K text with
  | inl doc => unify (map_range K doc) cfg
  | inr e => (cfg, Some e)
  end.



(** *** State and effects

    The state threaded through the hooks: the flag set of the context [c],
    which [c.Set] mutates in place, and the log of the calls made so far. *)
Inductive Call :=
| CLookup (name : string)
| CSet (name value : string)
| COpen (path : string)
| CDecode (text : string)
| CClose
| CWithServer (v : string)
| CWithKey (key : string)
| CWithName (name : string)
| CWithDataDir (d : string)
| CWithToken
| CNew (options : list (OptionFn K))
| CWithCancel
| CGo
| CRun.

Record State := MkState { flagSet : gmap string string; calls : list Call }.

(** A computation either returns a value or never returns ([None]). *)
Definition M (A : Type) : Type := State → State * option A.

#[export] Instance M_ret : MRet M := λ A a st, (st, Some a).

#[export] Instance M_bind : MBind M := λ A B f m st,
  match m st with
  | (st', Some a) => f a st'
  | (st', None) => (st', None)
  end.

Definition log (e : Call) : M unit :=
  λ st, (MkState (flagSet st) (calls st ++ [e]), Some ()).

(** [c.String(name)], and [c.GlobalString(name)], which on the top-level
    context (no parent) reads the same flag set. *)
Definition c_String (name : string) : M string :=
  λ st, (MkState (flagSet st) (calls st ++ [CLookup name]),
         Some (lookupString name (flagSet st))).

Definition c_GlobalString (name : string) : M string := c_String name.

(** [c.Set(name, value)]; the source drops the error it returns. *)
Definition c_Set (name value : string) : M unit :=
  λ st, (MkState (default (flagSet st) (flag_Set name value (flagSet st)))
                 (calls st ++ [CSet name value]),
         Some ()).

Definition exit1 (msg : string) : option ExitError := Some (NewExitError msg 1).

(** *** [loadConfig] *)
Definition loadConfig : M (option ExitError) :=
  s ← c_String "config";
  if decide (s = "") then mret None else
  _ ← log (COpen s);
  match os_Open K s with
  | inr err =>
      mret (exit1 (Errorf K (RedString K ("Could not open config file: " +:+ Error K err))))
  | inl r =>
      _ ← log (CDecode r);
      match DecodeReader r config_zero with
      | (_, Some err) =>
          _ ← log CClose;
          mret (exit1 (Errorf K (RedString K ("Could not parse config file: " +:+ Error K err))))
      | (config, None) =>
          _ ← c_Set "server" (Server config);
          _ ← c_Set "remote-key" (RemoteKey config);
          _ ← c_Set "data" (DataDir config);
          _ ← c_Set "name" (Name config);
          _ ← log CClose;
          mret None
      end
  end.

(** *** [serve] *)
Definition serve : M (option ExitError) :=
  let options := [] in
  v ← c_GlobalString "server";
  if decide (v = "") then mret (exit1 (Errorf K (RedString K "No target server set."))) else
  _ ← log (CWithServer v);
  let options := options ++ [WithServer K v] in
  key ← c_GlobalString "remote-key";
  if decide (key = "") then mret (exit1 (Errorf K (RedString K "No remote key set."))) else
  _ ← log (CWithKey key);
  let options := options ++ [WithKey K key] in
  name ← c_GlobalString "name";
  if decide (name = "") then mret (exit1 (Errorf K (RedString K "No name set."))) else
  _ ← log (CWithName name);
  let options := options ++ [WithName K name] in
  d ← c_String "data";
  if decide (d = "") then mret (exit1 (Errorf K (RedString K "No data dir set."))) else
  _ ← log (CWithDataDir d);
  match WithDataDir K d with
  | inr err => mret (exit1 (Error K err))
  | inl fn =>
      let options := options ++ [fn] in
      _ ← log CWithToken;
      let options := options ++ [WithToken K] in
      _ ← log (CNew options);
      match server_New K options with
      | inr err => mret (exit1 (Error K err))
      | inl srvr =>
          _ ← log CWithCancel;
          _ ← log CGo;
          _ ← log CRun;
          _ ← (λ st, (st, Run K srvr)) : M (option (error K));
          mret None
      end
  end.

End Program.

Arguments MkState {K} _ _.
Arguments flagSet {K} _.
Arguments calls {K} _.

(** ** Names for what [serve] reads and builds *)

Section Views.

Variable K : Collab.

(** The four values [serve] reads, and the messages of its four checks. *)
Definition server_of (st : State K) : string := lookupString "server" (flagSet st).
Definition key_of (st : State K) : string := lookupString "remote-key" (flagSet st).
Definition name_of (st : State K) : string := lookupString "name" (flagSet st).
Definition data_of (st : State K) : string := lookupString "data" (flagSet st).

Definition missing (msg : string) : option (option ExitError) :=
  Some (exit1 (Errorf K (RedString K msg))).

(** The calls [serve] makes up to and including the call of
    [server.WithDataDir]. *)
Definition calls_to_datadir (st : State K) : list (Call K) :=
  [CLookup K "server"; CWithServer K (server_of st);
   CLookup K "remote-key"; CWithKey K (key_of st);
   CLookup K "name"; CWithName K (name_of st);
   CLookup K "data"; CWithDataDir K (data_of st)].

(** The option sequence [serve] hands to [server.New]. *)
Definition options_of (st : State K) (fn : OptionFn K) : list (OptionFn K) :=
  [WithServer K (server_of st); WithKey K (key_of st); WithName K (name_of st);
   fn; WithToken K].

End Views.

Arguments server_of {K} _.
Arguments key_of {K} _.
Arguments name_of {K} _.
Arguments data_of {K} _.
Arguments calls_to_datadir {K} _.
Arguments options_of {K} _ _.

(** ** The application run

    What the command-line library does with the two hooks [New] installs,
    for the command lines [parse_args] covers: [app.Before = loadConfig] runs
    first on the parsed flag set; only when it returns no error does
    [app.Action = serve] run, on the same context.  [IncorrectUsage] stands
    for a command line [parse_args] has no flag set for, where the hooks do
    not run: one the library rejects, from which this model does not tell
    apart one that asks for the help or the version. *)
Inductive Outcome :=
| IncorrectUsage
| Returned (err : option ExitError)
| Serving.

Definition App_Run (K : Collab) (args : list (string * string)) : State K * Outcome :=
  match parse_args args with
  | None => (MkState (flagSet_of New_Flags) [], IncorrectUsage)
  | Some set =>
      match loadConfig K (MkState set []) with
      | (st, Some (Some e)) => (st, Returned (Some e))
      | (st, Some None) =>
          match serve K st with
          | (st', Some r) => (st', Returned r)
          | (st', None) => (st', Serving)
          end
      | (st, None) => (st, Serving)
      end
  end.


(** Modelled from the spec: the program entry point that turns the error
    returned by the hooks into the process exit status is not part of
    [cmd/agent.go].  The spec gives status 0 on normal termination after the
    run call returns and the status carried by the exit error (1) on every
    start-up failure.  A run that is still serving has no status. *)
Definition exit_status (o : Outcome) : option Z :=
  match o with
  | Returned None => Some 0
  | Returned (Some e) => Some (exitCode e)
  | IncorrectUsage => None
  | Serving => None
  end.

(** ** The signal goroutine of [serve]

    The goroutine makes a channel of capacity 1, registers it for
    [os.Interrupt] and for [syscall.SIGTERM], then blocks in a [select] with a
    single receive case; on a receive it calls [cancel] and ends.  The runtime
    delivers a registered signal with a send that does not block: the signal
    is queued if the channel has room and dropped otherwise.  A signal nobody
    registered for takes the default disposition. *)
Module Listener.

Inductive Signal := Interrupt | SIGTERM | Other (n : nat).

#[export] Instance Signal_eq_dec : EqDecision Signal.
Proof. solve_decision. Defined.

(** Where the goroutine stands. *)
Inductive pc := AtMake | AtNotifyInterrupt | AtNotifySIGTERM | AtSelect | Ended.

#[export] Instance pc_eq_dec : EqDecision pc.
Proof. solve_decision. Defined.

Record State := MkState {
  at_ : pc;
  s : list Signal;            (* the buffer of channel [s], capacity 1 *)
  registered : list Signal;   (* signals [signal.Notify] was called for *)
  cancelled : bool;           (* the context [ctx] is done *)
  cancel_calls : nat;         (* how often [cancel] was called *)
  unhandled : list Signal     (* signals that took the default disposition *)
}.

(** The state when [serve] reaches the [go] statement: [ctx] was just made by
    [context.WithCancel], nothing is registered. *)
Definition init : State := MkState AtMake [] [] false 0 [].

Definition capacity : nat := 1.

(** What happens around the goroutine: a signal reaches the process, or the
    scheduler lets the goroutine take its next step. *)
Inductive Event := Deliver (sig : Signal) | Sched.

(** [cancel()]: marks the context done; a repeated call changes nothing but
    is counted. *)
Definition cancel (st : State) : State :=
  MkState (at_ st) (s st) (registered st) true (S (cancel_calls st)) (unhandled st).

Definition deliver (sig : Signal) (st : State) : State :=
  if decide (sig ∈ registered st) then
    if decide (length (s st) < capacity)%nat then
      MkState (at_ st) (s st ++ [sig]) (registered st)
              (cancelled st) (cancel_calls st) (unhandled st)
    else st
  else
    MkState (at_ st) (s st) (registered st)
            (cancelled st) (cancel_calls st) (unhandled st ++ [sig]).

Definition sched (st : State) : State :=
  match at_ st with
  | AtMake =>
      MkState AtNotifyInterrupt [] (registered st)
              (cancelled st) (cancel_calls st) (unhandled st)
  | AtNotifyInterrupt =>
      MkState AtNotifySIGTERM (s st) (Interrupt :: registered st)
              (cancelled st) (cancel_calls st) (unhandled st)
  | AtNotifySIGTERM =>
      MkState AtSelect (s st) (SIGTERM :: registered st)
              (cancelled st) (cancel_calls st) (unhandled st)
  | AtSelect =>
      match s st with
      | [] => st
      | _ :: rest =>
          let st' := cancel st in
          MkState Ended rest (registered st')
                  (cancelled st') (cancel_calls st') (unhandled st')
      end
  | Ended => st
  end.

Definition step (st : State) (e : Event) : State :=
  match e with
  | Deliver sig => deliver sig st
  | Sched => sched st
  end.

Definition run (es : list Event) (st : State) : State := fold_left step es st.

(** What the rest of the program can see of the goroutine: whether it ended,
    and the cancellation context. *)
Definition observable (st : State) : pc * bool * nat :=
  (at_ st, cancelled st, cancel_calls st).

(** The listener is installed once both registrations are made. *)
Definition installed (st : State) : Prop :=
  Interrupt ∈ registered st ∧ SIGTERM ∈ registered st.

(** Before the receive the context is untouched; after it the goroutine has
    ended, the context is done and [cancel] was called once.  From the
    [select] on, both registrations are in place. *)
Definition Inv (st : State) : Prop :=
  match at_ st with
  | Ended => cancelled st = true ∧ cancel_calls st = 1%nat ∧ installed st
  | AtSelect => cancelled st = false ∧ cancel_calls st = 0%nat ∧ installed st
  | AtNotifySIGTERM =>
      cancelled st = false ∧ cancel_calls st = 0%nat ∧ Interrupt ∈ registered st
  | _ => cancelled st = false ∧ cancel_calls st = 0%nat
  end.

(** Two states that agree on everything but the content of the buffer, which
    has the same length in both, stay so under the same events. *)
Definition same_but_buffer (a b : State) : Prop :=
  at_ a = at_ b ∧ registered a = registered b ∧ cancelled a = cancelled b ∧
  cancel_calls a = cancel_calls b ∧ length (s a) = length (s b).

(** Once the goroutine has ended nothing changes what can be observed. *)
Definition both_ended (a b : State) : Prop :=
  a = b ∨ (at_ a = Ended ∧ at_ b = Ended ∧ cancelled a = cancelled b ∧
           cancel_calls a = cancel_calls b).

(** A signal is waiting in the buffer of an installed listener, or the
    listener has already taken one. *)
Definition pending_or_ended (st : State) : Prop :=
  at_ st = Ended ∨ (at_ st = AtSelect ∧ s st ≠ []).

End Listener.

(** ** A concrete set of collaborators

    Used to run the definitions on examples: an in-memory file system with one
    well-formed file, one malformed file and one file whose [server] key holds
    a number, one file without a [data-dir] key, one file that writes the
    [server] key with a capital; a data directory resolver that rejects one
    path. *)
Module Stub.

Inductive Opt := OServer (v : string) | OKey (k : string) | OName (n : string)
               | ODataDir (p : string) | OToken.

Definition files (path : string) : string + string :=
  if decide (path = "agent.toml") then inl "server-only"
  else if decide (path = "full.toml") then inl "full"
  else if decide (path = "broken.toml") then inl "server = ["
  else if decide (path = "typed.toml") then inl "typed"
  else if decide (path = "nodata.toml") then inl "no-data"
  else if decide (path = "caps.toml") then inl "caps"
  else if decide (path = "capsdata.toml") then inl "caps-data"
  else inr ("open " +:+ path +:+ ": no such file or directory").

Definition parse (text : string) : gmap string toml_value + string :=
  if decide (text = "server-only") then
    inl {[ "server" := TString "10.0.0.1:1337" ]}
  else if decide (text = "full") then
    inl (<["server" := TString "a"]> (<["remote-key" := TString "b"]>
         (<["name" := TString "c"]> {[ "data-dir" := TString "d" ]})))
  else if decide (text = "typed") then
    inl (<["name" := TString "c"]> {[ "server" := TInteger 5 ]})
  else if decide (text = "no-data") then
    inl (<["server" := TString "a"]> (<["remote-key" := TString "b"]>
         {[ "name" := TString "c" ]}))
  else if decide (text = "caps") then
    inl {[ "Server" := TString "10.0.0.1:1337" ]}
  else if decide (text = "caps-data") then
    inl (<["server" := TString "a"]> (<["remote-key" := TString "b"]>
         (<["name" := TString "c"]> {[ "Data-Dir" := TString "/x" ]})))
  else inr "unexpected EOF".

(** Matching up to the case of the letters A to Z. *)
Definition lower_ascii (c : Ascii.ascii) : Ascii.ascii :=
  let n := Ascii.nat_of_ascii c in
  if ((65 <=? n) && (n <=? 90))%nat then Ascii.ascii_of_nat (n + 32) else c.

Fixpoint lower (s : string) : string :=
  match s with
  | EmptyString => EmptyString
  | String c r => String (lower_ascii c) (lower r)
  end.

Definition equal_fold (a b : string) : bool := bool_decide (lower a = lower b).

Definition K : Collab := {|
  error := string;
  Error := λ e, e;
  RedString := λ m, "[red]" +:+ m;
  Errorf := λ m, m;
  os_Open := files;
  toml_parse := parse;
  toml_mismatch := λ k _, "incompatible types: TOML key " +:+ k;
  EqualFold := equal_fold;
  map_range := map_to_list;
  map_range_perm := λ doc, Permutation_refl _;
  OptionFn := Opt;
  Agent := list Opt;
  WithServer := OServer;
  WithKey := OKey;
  WithName := OName;
  WithDataDir := λ d, if decide (d = "/proc/nope") then inr "mkdir /proc/nope: permission denied"
                      else inl (ODataDir d);
  WithToken := OToken;
  server_New := λ opts, inl opts;
  Run := λ _, Some None
|}.

(** The same collaborators, except that [server.New] refuses every option
    sequence. *)
Definition K_refusing : Collab := {|
  error := string;
  Error := λ e, e;
  RedString := λ m, "[red]" +:+ m;
  Errorf := λ m, m;
  os_Open := files;
  toml_parse := parse;
  toml_mismatch := λ k _, "incompatible types: TOML key " +:+ k;
  EqualFold := equal_fold;
  map_range := map_to_list;
  map_range_perm := λ doc, Permutation_refl _;
  OptionFn := Opt;
  Agent := list Opt;
  WithServer := OServer;
  WithKey := OKey;
  WithName := OName;
  WithDataDir := λ d, if decide (d = "/proc/nope") then inr "mkdir /proc/nope: permission denied"
                      else inl (ODataDir d);
  WithToken := OToken;
  server_New := λ _, inr "no usable address";
  Run := λ _, Some None
|}.

(** Command lines: the three required flags by their short names, and the
    same with a data directory and a config file. *)
Definition args_plain : list (string * string) :=
  [("s", "collector:1337"); ("k", "key"); ("n", "agent-1")].

Definition args_file (f : string) : list (string * string) :=
  args_plain ++ [("d", "/var/agent"); ("f", f)].

Definition flags_of (args : list (string * string)) : gmap string string :=
  default ∅ (parse_args args).

Definition start (args : list (string * string)) : State K :=
  MkState (flags_of args) [].

End Stub.

(** * Properties *)

(** Unfolds the effect layer so that a hook becomes a plain function of the
    state. *)
Ltac run_hook :=
  unfold loadConfig, serve, c_GlobalString, c_String, c_Set, log, exit1,
    mbind, M_bind, mret, M_ret; simpl.


Section DecodeFacts.

Variable K : Collab.









End DecodeFacts.

(** ** The flag set keeps every declared name defined *)

Lemma flag_Set_defined n v set set' m :
  flag_Set n v set = Some set' → is_Some (set !! m) → is_Some (set' !! m).
Proof.
  unfold flag_Set. destruct (set !! n); [|done]. intros [= <-] Hm.
  apply lookup_insert_is_Some. destruct (decide (n = m)); auto.
Qed.








Lemma lookupString_insert n v (set : gmap string string) m :
  lookupString m (<[n := v]> set) = if decide (n = m) then v else lookupString m set.
Proof. unfold lookupString. rewrite lookup_insert. by case_decide. Qed.

Section LoadConfig.

Variable K : Collab.


Lemma loadConfig_open_fails (st : State K) err :
  lookupString "config" (flagSet st) ≠ "" →
  os_Open K (lookupString "config" (flagSet st)) = inr err →
  loadConfig K st =
    (MkState (flagSet st)
             (calls st ++ [CLookup K "config"; COpen K (lookupString "config" (flagSet st))]),
     Some (exit1 (Errorf K (RedString K ("Could not open config file: " +:+ Error K err))))).
Proof.
  intros Hc Ho. run_hook. case_decide; [done|]. rewrite Ho. simpl.
  by rewrite <- !(assoc_L (++)).
Qed.

Lemma loadConfig_parse_fails (st : State K) text half err :
  lookupString "config" (flagSet st) ≠ "" →
  os_Open K (lookupString "config" (flagSet st)) = inl text →
  DecodeReader K text config_zero = (half, Some err) →
  loadConfig K st =
    (MkState (flagSet st)
             (calls st ++ [CLookup K "config"; COpen K (lookupString "config" (flagSet st));
                           CDecode K text; CClose K]),
     Some (exit1 (Errorf K (RedString K ("Could not parse config file: " +:+ Error K err))))).
Proof.
  intros Hc Ho Hd. run_hook. case_decide; [done|]. rewrite Ho. simpl.
  rewrite Hd. simpl. by rewrite <- !(assoc_L (++)).
Qed.

Lemma loadConfig_no_path (st : State K) :
  lookupString "config" (flagSet st) = "" →
  loadConfig K st = (MkState (flagSet st) (calls st ++ [CLookup K "config"]), Some None).
Proof. intros Hc. run_hook. by case_decide. Qed.

(** C7. With an empty config path [loadConfig] returns nil at once: the flag
    set is the one the flags populated, the only thing it did was to read the
    [config] flag, and no file was opened. *)
Theorem loadConfig_empty_path (st : State K) :
  lookupString "config" (flagSet st) = "" →
  loadConfig K st = (MkState (flagSet st) (calls st ++ [CLookup K "config"]), Some None) ∧
  ∀ st' r, loadConfig K st = (st', r) →
    flagSet st' = flagSet st ∧ r = Some None ∧
    ∀ path, COpen K path ∉ drop (length (calls st)) (calls st').
Proof.
  intros Hc. pose proof (loadConfig_no_path st Hc) as Heq.
  split; [done|]. intros st' r Hr. rewrite Heq in Hr. simplify_eq. simpl.
  repeat split. intros path. rewrite drop_app_length.
  rewrite elem_of_cons, elem_of_nil. intuition discriminate.
Qed.

(** C5. A run of [loadConfig] that returns an error leaves the flag set as
    it found it and made no assignment at all: what a decoding that failed
    half-way stored in the local struct is never applied. *)
Theorem loadConfig_failure_frame (st st' : State K) (e : ExitError) :
  loadConfig K st = (st', Some (Some e)) →
  flagSet st' = flagSet st ∧
  ∃ cs, calls st' = calls st ++ cs ∧ ∀ n v, CSet K n v ∉ cs.
Proof.
  intros Hl.
  destruct (decide (lookupString "config" (flagSet st) = "")) as [Hc|Hc].
  { rewrite (loadConfig_no_path st Hc) in Hl. done. }
  destruct (os_Open K (lookupString "config" (flagSet st))) as [text|err] eqn:Ho.
  - destruct (DecodeReader K text config_zero) as [half [err|]] eqn:Hd.
    + rewrite (loadConfig_parse_fails st text half err Hc Ho Hd) in Hl.
      simplify_eq. simpl. split; [done|]. eexists. split; [done|].
      intros n v. rewrite !elem_of_cons, elem_of_nil. intuition discriminate.
    + revert Hl. run_hook. case_decide; [done|]. rewrite Ho. simpl.
      rewrite Hd. simpl. done.
  - rewrite (loadConfig_open_fails st err Hc Ho) in Hl.
    simplify_eq. simpl. split; [done|]. eexists. split; [done|].
    intros n v. rewrite !elem_of_cons, elem_of_nil. intuition discriminate.
Qed.


End LoadConfig.

Section Serve.

Variable K : Collab.

Ltac run_serve :=
  unfold missing, calls_to_datadir, options_of in *;
  unfold server_of, key_of, name_of, data_of in *;
  run_hook; repeat (case_decide; simpl in * ); try done.

Lemma serve_no_server (st : State K) :
  server_of st = "" →
  serve K st = (MkState (flagSet st) (calls st ++ [CLookup K "server"]),
                missing K "No target server set.").
Proof. intros H. by run_serve. Qed.

Lemma serve_no_key (st : State K) :
  server_of st ≠ "" → key_of st = "" →
  serve K st =
    (MkState (flagSet st)
       (calls st ++ [CLookup K "server"; CWithServer K (server_of st);
                     CLookup K "remote-key"]),
     missing K "No remote key set.").
Proof.
  intros H1 H2. run_serve. by rewrite <- !(assoc_L (++)).
Qed.

Lemma serve_no_name (st : State K) :
  server_of st ≠ "" → key_of st ≠ "" → name_of st = "" →
  serve K st =
    (MkState (flagSet st)
       (calls st ++ [CLookup K "server"; CWithServer K (server_of st);
                     CLookup K "remote-key"; CWithKey K (key_of st);
                     CLookup K "name"]),
     missing K "No name set.").
Proof.
  intros H1 H2 H3. run_serve. by rewrite <- !(assoc_L (++)).
Qed.

Lemma serve_no_data (st : State K) :
  server_of st ≠ "" → key_of st ≠ "" → name_of st ≠ "" → data_of st = "" →
  serve K st =
    (MkState (flagSet st)
       (calls st ++ [CLookup K "server"; CWithServer K (server_of st);
                     CLookup K "remote-key"; CWithKey K (key_of st);
                     CLookup K "name"; CWithName K (name_of st);
                     CLookup K "data"]),
     missing K "No data dir set.").
Proof.
  intros H1 H2 H3 H4. run_serve. by rewrite <- !(assoc_L (++)).
Qed.

Lemma serve_datadir_fails (st : State K) err :
  server_of st ≠ "" → key_of st ≠ "" → name_of st ≠ "" → data_of st ≠ "" →
  WithDataDir K (data_of st) = inr err →
  serve K st =
    (MkState (flagSet st) (calls st ++ calls_to_datadir st),
     Some (exit1 (Error K err))).
Proof.
  intros H1 H2 H3 H4 Hd. run_serve. rewrite Hd. simpl.
  by rewrite <- !(assoc_L (++)).
Qed.

Lemma serve_new_fails (st : State K) fn err :
  server_of st ≠ "" → key_of st ≠ "" → name_of st ≠ "" → data_of st ≠ "" →
  WithDataDir K (data_of st) = inl fn →
  server_New K (options_of st fn) = inr err →
  serve K st =
    (MkState (flagSet st)
       (calls st ++ calls_to_datadir st ++ [CWithToken K; CNew K (options_of st fn)]),
     Some (exit1 (Error K err))).
Proof.
  intros H1 H2 H3 H4 Hd Hn. run_serve. rewrite Hd. simpl. rewrite Hn. simpl.
  by rewrite <- !(assoc_L (++)).
Qed.

Lemma serve_runs (st : State K) fn srvr :
  server_of st ≠ "" → key_of st ≠ "" → name_of st ≠ "" → data_of st ≠ "" →
  WithDataDir K (data_of st) = inl fn →
  server_New K (options_of st fn) = inl srvr →
  serve K st =
    (MkState (flagSet st)
       (calls st ++ calls_to_datadir st ++
          [CWithToken K; CNew K (options_of st fn); CWithCancel K; CGo K; CRun K]),
     match Run K srvr with Some _ => Some None | None => None end).
Proof.
  intros H1 H2 H3 H4 Hd Hn. run_serve. rewrite Hd. simpl. rewrite Hn. simpl.
  rewrite <- !(assoc_L (++)). simpl. by destruct (Run K srvr).
Qed.

Ltac not_in_calls :=
  unfold calls_to_datadir; intros;
  rewrite ?elem_of_app, ?elem_of_cons, ?elem_of_nil; intuition discriminate.

(** Every run of [serve] either stops with an exit error of code 1 before
    [Run] is called, or constructs the agent and calls [Run]. *)
Lemma serve_outcome (st : State K) :
  ∃ cs r, serve K st = (MkState (flagSet st) (calls st ++ cs), r) ∧
    (((CRun K ∉ cs) ∧ ∃ e, r = Some (Some e) ∧ exitCode e = 1) ∨
     (∃ fn srvr, WithDataDir K (data_of st) = inl fn ∧
        server_New K (options_of st fn) = inl srvr ∧
        r = match Run K srvr with Some _ => Some None | None => None end)).
Proof.
  destruct (decide (server_of st = "")) as [H1|H1].
  { do 2 eexists. split; [by apply serve_no_server|]. left.
    split; [not_in_calls | by eexists]. }
  destruct (decide (key_of st = "")) as [H2|H2].
  { do 2 eexists. split; [by apply serve_no_key|]. left.
    split; [not_in_calls | by eexists]. }
  destruct (decide (name_of st = "")) as [H3|H3].
  { do 2 eexists. split; [by apply serve_no_name|]. left.
    split; [not_in_calls | by eexists]. }
  destruct (decide (data_of st = "")) as [H4|H4].
  { do 2 eexists. split; [by apply serve_no_data|]. left.
    split; [not_in_calls | by eexists]. }
  destruct (WithDataDir K (data_of st)) as [fn|err] eqn:Hd.
  - destruct (server_New K (options_of st fn)) as [srvr|err] eqn:Hn.
    + do 2 eexists. split; [by apply (serve_runs st fn srvr)|]. right. eauto.
    + do 2 eexists. split; [by apply (serve_new_fails st fn err)|]. left.
      split; [not_in_calls | by eexists].
  - do 2 eexists. split; [by apply serve_datadir_fails|]. left.
    split; [not_in_calls | by eexists].
Qed.

(** C2. When one of the four required values is empty, [serve] returns an
    exit error of code 1 whose message names the first missing value in the
    order server, remote key, name, data directory; the calls it made stop at
    the read of that value, so no later value is read and [server.New] is
    not called. *)
Theorem serve_missing_option (st : State K) :
  server_of st = "" ∨ key_of st = "" ∨ name_of st = "" ∨ data_of st = "" →
  ∃ cs msg,
    serve K st = (MkState (flagSet st) (calls st ++ cs), missing K msg) ∧
    exit_status (Returned (exit1 (Errorf K (RedString K msg)))) = Some 1 ∧
    (∀ o, CNew K o ∉ cs) ∧
    (server_of st = "" →
       msg = "No target server set." ∧ cs = [CLookup K "server"]) ∧
    (server_of st ≠ "" → key_of st = "" →
       msg = "No remote key set." ∧
       cs = [CLookup K "server"; CWithServer K (server_of st);
             CLookup K "remote-key"]) ∧
    (server_of st ≠ "" → key_of st ≠ "" → name_of st = "" →
       msg = "No name set." ∧
       cs = [CLookup K "server"; CWithServer K (server_of st);
             CLookup K "remote-key"; CWithKey K (key_of st);
             CLookup K "name"]) ∧
    (server_of st ≠ "" → key_of st ≠ "" → name_of st ≠ "" → data_of st = "" →
       msg = "No data dir set." ∧
       cs = [CLookup K "server"; CWithServer K (server_of st);
             CLookup K "remote-key"; CWithKey K (key_of st);
             CLookup K "name"; CWithName K (name_of st);
             CLookup K "data"]).
Proof.
  intros Hmiss.
  destruct (decide (server_of st = "")) as [H1|H1].
  { do 2 eexists. split; [by apply serve_no_server|].
    repeat split; try done; not_in_calls. }
  destruct (decide (key_of st = "")) as [H2|H2].
  { do 2 eexists. split; [by apply serve_no_key|].
    repeat split; try done; not_in_calls. }
  destruct (decide (name_of st = "")) as [H3|H3].
  { do 2 eexists. split; [by apply serve_no_name|].
    repeat split; try done; not_in_calls. }
  destruct (decide (data_of st = "")) as [H4|H4].
  { do 2 eexists. split; [by apply serve_no_data|].
    repeat split; try done; not_in_calls. }
  tauto.
Qed.

(** C3. When the four values are non-empty and the data directory resolves
    to the option [fn], [serve] calls [server.New] with exactly five options
    in the order server, remote key, name, data directory, token, the token
    option last; no other call of [server.New] is made. *)
Theorem serve_option_sequence (st : State K) (fn : OptionFn K) :
  server_of st ≠ "" → key_of st ≠ "" → name_of st ≠ "" → data_of st ≠ "" →
  WithDataDir K (data_of st) = inl fn →
  ∃ st' r cs,
    serve K st = (st', r) ∧
    calls st' = calls st ++ calls_to_datadir st ++
                  [CWithToken K; CNew K (options_of st fn)] ++ cs ∧
    options_of st fn =
      [WithServer K (server_of st); WithKey K (key_of st);
       WithName K (name_of st); fn; WithToken K] ∧
    length (options_of st fn) = 5%nat ∧
    last (options_of st fn) = Some (WithToken K) ∧
    (∀ o, CNew K o ∉ calls_to_datadir st) ∧ (∀ o, CNew K o ∉ cs).
Proof.
  intros H1 H2 H3 H4 Hd.
  destruct (server_New K (options_of st fn)) as [srvr|err] eqn:Hn.
  - exists (MkState (flagSet st)
       (calls st ++ calls_to_datadir st ++
          [CWithToken K; CNew K (options_of st fn); CWithCancel K; CGo K; CRun K])).
    eexists. exists [CWithCancel K; CGo K; CRun K].
    split; [by apply (serve_runs st fn srvr)|].
    repeat split; try done; not_in_calls.
  - exists (MkState (flagSet st)
       (calls st ++ calls_to_datadir st ++ [CWithToken K; CNew K (options_of st fn)])).
    eexists. exists [].
    split; [by apply (serve_new_fails st fn err)|].
    repeat split; try done; not_in_calls.
Qed.

(** C6. When the data directory value is non-empty and its resolution
    fails, [serve] returns an exit error of code 1 and reaches neither the
    append of the token option nor [server.New]; once the three earlier checks
    pass the error is the one of the resolution, its message the text of the
    underlying cause. *)
Theorem serve_datadir_error (st : State K) (err : error K) :
  data_of st ≠ "" →
  WithDataDir K (data_of st) = inr err →
  ∃ cs e,
    serve K st = (MkState (flagSet st) (calls st ++ cs), Some (Some e)) ∧
    exitCode e = 1 ∧
    exit_status (Returned (Some e)) = Some 1 ∧
    (CWithToken K ∉ cs) ∧ (∀ o, CNew K o ∉ cs) ∧
    (server_of st ≠ "" → key_of st ≠ "" → name_of st ≠ "" →
       e = NewExitError (Error K err) 1 ∧ cs = calls_to_datadir st).
Proof.
  intros H4 Hd.
  destruct (decide (server_of st = "")) as [H1|H1].
  { do 2 eexists. split; [by apply serve_no_server|].
    repeat split; try done; not_in_calls. }
  destruct (decide (key_of st = "")) as [H2|H2].
  { do 2 eexists. split; [by apply serve_no_key|].
    repeat split; try done; not_in_calls. }
  destruct (decide (name_of st = "")) as [H3|H3].
  { do 2 eexists. split; [by apply serve_no_name|].
    repeat split; try done; not_in_calls. }
  do 2 eexists. split; [by apply serve_datadir_fails|].
  repeat split; try done; not_in_calls.
Qed.

(** C9. Whenever [serve] has called [Run] and [Run] returns, [serve] returns
    nil, whatever [Run] returned, and the exit status is 0. *)
Theorem serve_after_run (st : State K) :
  (∀ st' res, serve K st = (st', Some res) →
     CRun K ∈ drop (length (calls st)) (calls st') →
     res = None ∧ exit_status (Returned res) = Some 0) ∧
  (∀ fn srvr r,
     server_of st ≠ "" → key_of st ≠ "" → name_of st ≠ "" → data_of st ≠ "" →
     WithDataDir K (data_of st) = inl fn →
     server_New K (options_of st fn) = inl srvr →
     Run K srvr = Some r →
     ∃ st', serve K st = (st', Some None) ∧
       CRun K ∈ drop (length (calls st)) (calls st') ∧
       exit_status (Returned None) = Some 0).
Proof.
  split.
  - intros st' res Hs Hrun.
    destruct (serve_outcome st) as (cs & r & Heq & Hcase).
    rewrite Heq in Hs. simplify_eq. simpl in Hrun. rewrite drop_app_length in Hrun.
    destruct Hcase as [[Hno _]|(fn & srvr & _ & _ & Hr)]; [done|].
    destruct (Run K srvr); by simplify_eq.
  - intros fn srvr r H1 H2 H3 H4 Hd Hn Hr.
    eexists. split.
    { rewrite (serve_runs st fn srvr); try done. by rewrite Hr. }
    simpl. rewrite drop_app_length. split; [|done].
    rewrite ?elem_of_app, ?elem_of_cons. tauto.
Qed.

End Serve.

(** ** What the command line leaves in the [data] flag *)

Lemma last_assign_None m args : m ∉ args.*1 → last_assign m args = None.
Proof.
  induction args as [|[n v] rest IH]; simpl; [done|].
  intros Hn. apply not_elem_of_cons in Hn as [Hne Hn].
  rewrite (IH Hn). by case_decide.
Qed.

Lemma last_assign_is_Some m args : m ∈ args.*1 → is_Some (last_assign m args).
Proof.
  induction args as [|[n v] rest IH]; simpl.
  - intros H. by apply elem_of_nil in H.
  - intros H. destruct (last_assign m rest) as [v'|] eqn:Hl; [by eexists|].
    case_decide; [by eexists|].
    apply elem_of_cons in H as [H|H]; [congruence|].
    destruct (IH H) as [? ?]. done.
Qed.

Lemma flag_Parse_lookup args : ∀ set vis set' vis' m,
  flag_Parse args set vis = Some (set', vis') →
  is_Some (set !! m) →
  set' !! m = match last_assign m args with
              | Some v => Some v
              | None => set !! m
              end ∧
  (m ∈ vis' ↔ m ∈ vis ∨ m ∈ args.*1).
Proof.
  induction args as [|[n v] rest IH]; intros set vis set' vis' m Hp Hm; simpl in *.
  - simplify_eq. rewrite elem_of_nil. tauto.
  - destruct (flag_Set n v set) as [s1|] eqn:Hs; [|done].
    assert (is_Some (s1 !! m)) as Hm1 by by eapply flag_Set_defined.
    destruct (IH _ _ _ _ m Hp Hm1) as [Hl Hv]. split.
    + rewrite Hl. destruct (last_assign m rest); [done|].
      unfold flag_Set in Hs. destruct (set !! n); [|done]. simplify_eq.
      rewrite lookup_insert. by case_decide.
    + rewrite Hv, !elem_of_cons. tauto.
Qed.

Lemma copy_lookup_ne (x : string) names : ∀ (set : gmap string string) m,
  m ∉ names → foldr (λ n s, <[n := x]> s) set names !! m = set !! m.
Proof.
  induction names as [|n names IH]; intros set m Hm; simpl; [done|].
  apply not_elem_of_cons in Hm as [Hne Hm].
  rewrite lookup_insert_ne; [by apply IH | done].
Qed.

Lemma normalizeFlag_other vis f set set' m :
  normalizeFlag vis f set = Some set' → m ∉ Names f → set' !! m = set !! m.
Proof.
  unfold normalizeFlag. destruct (filter _ _) as [|n [|? ?]]; intros ? Hm;
    simplify_eq; [done|]. by apply copy_lookup_ne.
Qed.




Section AppRun.

Variable K : Collab.




Lemma App_Run_loadConfig_fails args set st1 e :
  parse_args args = Some set →
  loadConfig K (MkState set []) = (st1, Some (Some e)) →
  App_Run K args = (st1, Returned (Some e)).
Proof. intros Hp Hl. unfold App_Run. by rewrite Hp, Hl. Qed.


(** C4. For a non-empty config path: when the file cannot be opened the run
    ends with the exit error "Could not open config file: " followed by the
    text of the I/O error, and when the file opens but its decoding fails it
    ends with "Could not parse config file: " followed by the decoder's
    error; in both cases the exit code is 1 and [server.New] was not called. *)
Theorem config_file_failure (args : list (string * string)) (set : gmap string string) :
  parse_args args = Some set →
  lookupString "config" set ≠ "" →
  (∀ err, os_Open K (lookupString "config" set) = inr err →
     App_Run K args =
       (MkState set [CLookup K "config"; COpen K (lookupString "config" set)],
        Returned (exit1 (Errorf K (RedString K
                   ("Could not open config file: " +:+ Error K err))))) ∧
     exit_status (snd (App_Run K args)) = Some 1 ∧
     ∀ o, CNew K o ∉ calls (fst (App_Run K args))) ∧
  (∀ text half err,
     os_Open K (lookupString "config" set) = inl text →
     DecodeReader K text config_zero = (half, Some err) →
     App_Run K args =
       (MkState set [CLookup K "config"; COpen K (lookupString "config" set);
                     CDecode K text; CClose K],
        Returned (exit1 (Errorf K (RedString K
                   ("Could not parse config file: " +:+ Error K err))))) ∧
     exit_status (snd (App_Run K args)) = Some 1 ∧
     ∀ o, CNew K o ∉ calls (fst (App_Run K args))).
Proof.
  intros Hp Hc. split.
  - intros err Ho.
    pose proof (loadConfig_open_fails K (MkState set []) err Hc Ho) as Hl.
    rewrite (App_Run_loadConfig_fails _ _ _ _ Hp Hl). simpl.
    repeat split. intros o. rewrite !elem_of_cons, elem_of_nil. intuition discriminate.
  - intros text half err Ho Hd.
    pose proof (loadConfig_parse_fails K (MkState set []) text half err Hc Ho Hd) as Hl.
    rewrite (App_Run_loadConfig_fails _ _ _ _ Hp Hl). simpl.
    repeat split. intros o. rewrite !elem_of_cons, elem_of_nil. intuition discriminate.
Qed.



End AppRun.

(** ** The signal goroutine *)

Section ListenerFacts.

Import Listener.

Lemma Inv_init : Inv init.
Proof. by vm_compute. Qed.

Lemma Inv_step st e : Inv st → Inv (step st e).
Proof.
  destruct st as [p buf reg c n u]. unfold Inv, installed. destruct e as [sig|]; simpl.
  - unfold deliver. simpl. repeat case_decide; simpl; done.
  - unfold sched. simpl. destruct p; simpl; try done.
    + intros (? & ?). repeat split; try done. rewrite elem_of_cons. tauto.
    + intros (? & ? & ?). repeat split; try done; rewrite !elem_of_cons; tauto.
    + destruct buf; simpl; [done|]. intros (? & -> & ?). done.
Qed.

Lemma Inv_run es : ∀ st, Inv st → Inv (run es st).
Proof.
  induction es as [|e es IH]; intros st Hi; simpl; [done|].
  apply IH. by apply Inv_step.
Qed.

Lemma same_but_buffer_step a b e :
  same_but_buffer a b → same_but_buffer (step a e) (step b e).
Proof.
  destruct a as [p1 b1 r1 c1 n1 u1], b as [p2 b2 r2 c2 n2 u2].
  unfold same_but_buffer. simpl. intros (-> & -> & -> & -> & Hlen).
  destruct e as [sig|]; simpl.
  - unfold deliver. simpl. rewrite Hlen.
    repeat case_decide; simpl; rewrite ?length_app; simpl; repeat split; auto.
  - unfold sched. simpl. destruct p2; simpl; auto.
    destruct b1, b2; simpl in *; try done. repeat split; try done. congruence.
Qed.

Lemma same_but_buffer_run es : ∀ a b,
  same_but_buffer a b → observable (run es a) = observable (run es b).
Proof.
  induction es as [|e es IH]; intros a b Hab; simpl.
  - destruct Hab as (H1 & _ & H3 & H4 & _). unfold observable. by rewrite H1, H3, H4.
  - apply IH. by apply same_but_buffer_step.
Qed.

Lemma both_ended_step a b e : both_ended a b → both_ended (step a e) (step b e).
Proof.
  intros [->|(Ha & Hb & Hc & Hn)]; [by left|]. right.
  destruct a as [p1 b1 r1 c1 n1 u1], b as [p2 b2 r2 c2 n2 u2]. simpl in *. subst.
  destruct e as [sig|]; simpl; [|done].
  unfold deliver. simpl. repeat case_decide; simpl; done.
Qed.

Lemma both_ended_run es : ∀ a b,
  both_ended a b → observable (run es a) = observable (run es b).
Proof.
  induction es as [|e es IH]; intros a b Hab; simpl.
  - destruct Hab as [->|(H1 & H2 & H3 & H4)]; [done|].
    unfold observable. by rewrite H1, H2, H3, H4.
  - apply IH. by apply both_ended_step.
Qed.

Lemma pending_or_ended_step st e : pending_or_ended st → pending_or_ended (step st e).
Proof.
  destruct st as [p buf reg c n u]. unfold pending_or_ended. simpl.
  destruct e as [sig|]; simpl.
  - unfold deliver. simpl. repeat case_decide; simpl; try done.
    intros [?|[? ?]]; [by left|right]. split; [done|]. by destruct buf.
  - unfold sched. simpl. intros [->|[-> ?]]; [by left|]. destruct buf; [done|by left].
Qed.

Lemma pending_or_ended_run es : ∀ st, pending_or_ended st → pending_or_ended (run es st).
Proof.
  induction es as [|e es IH]; intros st Hi; simpl; [done|].
  apply IH. by apply pending_or_ended_step.
Qed.

Lemma deliver_pending sig st :
  sig ∈ registered st → at_ st = AtSelect ∨ at_ st = Ended →
  pending_or_ended (deliver sig st).
Proof.
  destruct st as [p buf reg c n u]. unfold pending_or_ended, deliver. simpl.
  intros Hreg Hat. repeat case_decide; simpl; try done.
  - destruct Hat as [->| ->]; [right|by left]. split; [done|]. by destruct buf.
  - destruct Hat as [->| ->]; [right|by left]. split; [done|].
    destruct buf; simpl in *; [unfold capacity in *; lia|done].
Qed.

Lemma ended_run es : ∀ st, at_ st = Ended → at_ (run es st) = Ended.
Proof.
  induction es as [|e es IH]; intros st He; simpl; [done|]. apply IH.
  destruct st as [p buf reg c n u]. simpl in *. subst.
  destruct e as [sig|]; simpl; [|done].
  unfold deliver. simpl. repeat case_decide; done.
Qed.

Lemma Inv_installed st : Inv st → at_ st = AtSelect ∨ at_ st = Ended → installed st.
Proof. unfold Inv. intros Hi [He|He]; rewrite He in Hi; tauto. Qed.

Lemma deliver_second sig st :
  Inv st → pending_or_ended st → sig = Interrupt ∨ sig = SIGTERM →
  both_ended (deliver sig st) st.
Proof.
  intros Hi Hp Hsig.
  assert (sig ∈ registered st) as Hreg.
  { destruct (Inv_installed st Hi) as [? ?]; [unfold pending_or_ended in Hp; tauto|].
    by destruct Hsig as [-> | ->]. }
  destruct st as [p buf reg c n u]. unfold pending_or_ended, both_ended, deliver in *.
  simpl in *. case_decide; [|done]. case_decide; [|by left].
  destruct Hp as [->|[-> Hne]]; [by right|].
  destruct buf; simpl in *; [done|unfold capacity in *; lia].
Qed.

Lemma Inv_facts st :
  Inv st →
  (cancel_calls st ≤ 1)%nat ∧
  (cancelled st = true ↔ cancel_calls st = 1%nat) ∧
  (at_ st = Ended ↔ cancelled st = true).
Proof.
  destruct st as [p buf reg c n u]. unfold Inv. simpl.
  destruct p; intuition (subst; try done; try lia; try congruence).
Qed.

(** C8. In every interleaving of signal deliveries and steps of the
    goroutine: [cancel] is called at most once, and it has been called
    exactly when the context is done, which is exactly when the goroutine has
    ended.  At the [select], the delivery of an interrupt or of a termination
    request followed by a step of the goroutine cancels the context, with one
    call of [cancel], and ends the goroutine; once it has ended nothing
    changes any more.  Delivering an interrupt and delivering a termination
    request lead to the same observations under every continuation, and a
    second signal, wherever it arrives after the first, changes none. *)
Theorem listener_cancels_once (es : list Event) :
  let st := run es init in
  (cancel_calls st ≤ 1)%nat ∧
  (cancelled st = true ↔ cancel_calls st = 1%nat) ∧
  (at_ st = Ended ↔ cancelled st = true) ∧
  (at_ st = AtSelect →
     ∀ sig, sig = Interrupt ∨ sig = SIGTERM →
       observable (run [Deliver sig; Sched] st) = (Ended, true, 1%nat)) ∧
  (at_ st = Ended →
     ∀ es', observable (run es' st) = (Ended, true, 1%nat)) ∧
  (at_ st = AtSelect ∨ at_ st = Ended →
     ∀ es', observable (run es' (step st (Deliver Interrupt))) =
            observable (run es' (step st (Deliver SIGTERM)))) ∧
  (at_ st = AtSelect ∨ at_ st = Ended →
     ∀ sig1 sig2 es1 es2,
       sig1 = Interrupt ∨ sig1 = SIGTERM → sig2 = Interrupt ∨ sig2 = SIGTERM →
       observable (run (es1 ++ Deliver sig2 :: es2) (step st (Deliver sig1))) =
       observable (run (es1 ++ es2) (step st (Deliver sig1)))).
Proof.
  intros st. assert (Inv st) as Hi by (apply Inv_run, Inv_init). clearbody st.
  assert (∀ x, Inv x → at_ x = Ended → observable x = (Ended, true, 1%nat)) as Hobs.
  { intros x Hx He. unfold Inv in Hx. rewrite He in Hx.
    destruct Hx as (Hc & Hn & _). unfold observable. by rewrite He, Hc, Hn. }
  destruct (Inv_facts st Hi) as (F1 & F2 & F3).
  split_and!; [done|done|done| | | | ].
  - intros Hat sig Hsig. apply Hobs; [by apply (Inv_run [_; _])|].
    destruct (deliver_pending sig st) as [He|[Hs Hne]].
    + destruct (Inv_installed st Hi) as [? ?]; [tauto|]. by destruct Hsig as [-> | ->].
    + by left.
    + simpl. unfold sched. by rewrite He.
    + simpl. unfold sched. rewrite Hs. by destruct (s (deliver sig st)).
  - intros He es'. apply Hobs; [by apply Inv_run | by apply ended_run].
  - intros Hat es'. apply same_but_buffer_run.
    destruct (Inv_installed st Hi Hat) as [Hint Hterm].
    unfold same_but_buffer. simpl. unfold deliver.
    repeat case_decide; simpl; rewrite ?length_app; try done; tauto.
  - intros Hat sig1 sig2 es1 es2 Hs1 Hs2. unfold run. rewrite !fold_left_app. simpl.
    apply both_ended_run. apply deliver_second; [|  |done].
    + apply (Inv_run es1). by apply (Inv_step st (Deliver sig1)).
    + apply pending_or_ended_run. apply deliver_pending; [|done].
      destruct (Inv_installed st Hi Hat) as [? ?]. by destruct Hs1 as [-> | ->].
Qed.

End ListenerFacts.

(** * The theorems on concrete runs *)

Ltac by_computation := apply (bool_decide_unpack _); vm_compute; exact I.

Lemma parse_args_flags_of args :
  is_Some (parse_args args) → parse_args args = Some (Stub.flags_of args).
Proof. unfold Stub.flags_of. by intros [set ->]. Defined.


Lemma serve_missing_option_witness :
  server_of (Stub.start [("s", "collector:1337")]) = "collector:1337" ∧
  key_of (Stub.start [("s", "collector:1337")]) = "" ∧
  serve Stub.K (Stub.start [("s", "collector:1337")]) =
    (MkState (flagSet (Stub.start [("s", "collector:1337")]))
       (calls (Stub.start [("s", "collector:1337")]) ++
          [CLookup Stub.K "server";
           CWithServer Stub.K (server_of (Stub.start [("s", "collector:1337")]));
           CLookup Stub.K "remote-key"]),
     missing Stub.K "No remote key set.").
Proof.
  split; [vm_compute; reflexivity|]. split; [vm_compute; reflexivity|].
  destruct (serve_missing_option Stub.K (Stub.start [("s", "collector:1337")]))
    as (cs & msg & Hs & _ & _ & _ & H2 & _);
    [right; left; vm_compute; reflexivity|].
  destruct H2 as [Hm Hc]; [by_computation | vm_compute; reflexivity|].
  rewrite Hs, Hm, Hc. reflexivity.
Defined.

Lemma serve_option_sequence_witness :
  server_of (Stub.start Stub.args_plain) = "collector:1337" ∧
  key_of (Stub.start Stub.args_plain) = "key" ∧
  name_of (Stub.start Stub.args_plain) = "agent-1" ∧
  data_of (Stub.start Stub.args_plain) = "~/.honeytrap-agent" ∧
  ∃ st' r cs,
    serve Stub.K (Stub.start Stub.args_plain) = (st', r) ∧
    calls st' =
      calls (Stub.start Stub.args_plain) ++ calls_to_datadir (Stub.start Stub.args_plain) ++
        [CWithToken Stub.K;
         CNew Stub.K (options_of (Stub.start Stub.args_plain)
                        (Stub.ODataDir "~/.honeytrap-agent"))] ++ cs ∧
    options_of (Stub.start Stub.args_plain) (Stub.ODataDir "~/.honeytrap-agent") =
      [Stub.OServer (server_of (Stub.start Stub.args_plain));
       Stub.OKey (key_of (Stub.start Stub.args_plain));
       Stub.OName (name_of (Stub.start Stub.args_plain));
       Stub.ODataDir "~/.honeytrap-agent"; Stub.OToken].
Proof.
  do 4 (split; [vm_compute; reflexivity|]).
  destruct (serve_option_sequence Stub.K (Stub.start Stub.args_plain)
              (Stub.ODataDir "~/.honeytrap-agent"))
    as (st' & r & cs & Hs & Hc & Ho & _);
    [by_computation | by_computation | by_computation | by_computation
    | vm_compute; reflexivity |].
  exists st', r, cs. split; [exact Hs|]. split; [exact Hc | exact Ho].
Defined.

Lemma config_file_failure_witness :
  (os_Open Stub.K "absent.toml" = inr "open absent.toml: no such file or directory" ∧
   exit_status (snd (App_Run Stub.K (Stub.args_file "absent.toml"))) = Some 1 ∧
   ∀ o, CNew Stub.K o ∉ calls (fst (App_Run Stub.K (Stub.args_file "absent.toml")))) ∧
  (os_Open Stub.K "broken.toml" = inl "server = [" ∧
   DecodeReader Stub.K "server = [" config_zero = (config_zero, Some "unexpected EOF") ∧
   exit_status (snd (App_Run Stub.K (Stub.args_file "broken.toml"))) = Some 1 ∧
   ∀ o, CNew Stub.K o ∉ calls (fst (App_Run Stub.K (Stub.args_file "broken.toml")))).
Proof.
  split.
  - split; [vm_compute; reflexivity|].
    destruct (config_file_failure Stub.K (Stub.args_file "absent.toml")
                (Stub.flags_of (Stub.args_file "absent.toml")))
      as [Hopen _]; [apply parse_args_flags_of; by_computation | by_computation |].
    destruct (Hopen "open absent.toml: no such file or directory")
      as (_ & He & Hn); [vm_compute; reflexivity|].
    split; [exact He | exact Hn].
  - split; [vm_compute; reflexivity|]. split; [vm_compute; reflexivity|].
    destruct (config_file_failure Stub.K (Stub.args_file "broken.toml")
                (Stub.flags_of (Stub.args_file "broken.toml")))
      as [_ Hparse]; [apply parse_args_flags_of; by_computation | by_computation |].
    destruct (Hparse "server = [" config_zero "unexpected EOF")
      as (_ & He & Hn); [vm_compute; reflexivity | vm_compute; reflexivity |].
    split; [exact He | exact Hn].
Defined.

Lemma loadConfig_failure_frame_witness :
  os_Open Stub.K "typed.toml" = inl "typed" ∧
  snd (DecodeReader Stub.K "typed" config_zero)
    = Some "incompatible types: TOML key server" ∧
  ∃ st' e,
    loadConfig Stub.K (Stub.start (Stub.args_file "typed.toml")) = (st', Some (Some e)) ∧
    flagSet st' = flagSet (Stub.start (Stub.args_file "typed.toml")).
Proof.
  split; [vm_compute; reflexivity|]. split; [vm_compute; reflexivity|].
  pose proof (loadConfig_parse_fails Stub.K (Stub.start (Stub.args_file "typed.toml"))
                "typed" (fst (DecodeReader Stub.K "typed" config_zero))
                "incompatible types: TOML key server") as Hl.
  do 3 (lapply Hl; [clear Hl; intros Hl | first [by_computation | vm_compute; reflexivity]]).
  do 2 eexists. split; [exact Hl|].
  destruct (loadConfig_failure_frame Stub.K _ _ _ Hl) as [Hf _]. exact Hf.
Defined.

Lemma serve_datadir_error_witness :
  WithDataDir Stub.K "/proc/nope" = inr "mkdir /proc/nope: permission denied" ∧
  data_of (Stub.start (Stub.args_plain ++ [("d", "/proc/nope")])) = "/proc/nope" ∧
  ∃ cs e,
    serve Stub.K (Stub.start (Stub.args_plain ++ [("d", "/proc/nope")])) =
      (MkState (flagSet (Stub.start (Stub.args_plain ++ [("d", "/proc/nope")])))
         (calls (Stub.start (Stub.args_plain ++ [("d", "/proc/nope")])) ++ cs),
       Some (Some e)) ∧
    e = NewExitError "mkdir /proc/nope: permission denied" 1 ∧
    (CWithToken Stub.K ∉ cs) ∧ (∀ o, CNew Stub.K o ∉ cs).
Proof.
  split; [vm_compute; reflexivity|]. split; [vm_compute; reflexivity|].
  destruct (serve_datadir_error Stub.K
              (Stub.start (Stub.args_plain ++ [("d", "/proc/nope")]))
              "mkdir /proc/nope: permission denied")
    as (cs & e & Hs & _ & _ & Ht & Hn & He);
    [by_computation | vm_compute; reflexivity |].
  destruct He as [He _]; [by_computation | by_computation | by_computation |].
  exists cs, e. split; [exact Hs|]. split; [exact He|]. split; [exact Ht | exact Hn].
Defined.

Lemma loadConfig_empty_path_witness :
  lookupString "config" (flagSet (Stub.start Stub.args_plain)) = "" ∧
  loadConfig Stub.K (Stub.start Stub.args_plain) =
    (MkState (flagSet (Stub.start Stub.args_plain))
       (calls (Stub.start Stub.args_plain) ++ [CLookup Stub.K "config"]),
     Some None).
Proof.
  split; [vm_compute; reflexivity|].
  destruct (loadConfig_empty_path Stub.K (Stub.start Stub.args_plain)) as [Hl _];
    [vm_compute; reflexivity|].
  exact Hl.
Defined.

Lemma listener_cancels_once_witness :
  Listener.at_ (Listener.run [Listener.Sched; Listener.Sched; Listener.Sched] Listener.init)
    = Listener.AtSelect ∧
  Listener.observable
    (Listener.run [Listener.Deliver Listener.SIGTERM; Listener.Sched]
       (Listener.run [Listener.Sched; Listener.Sched; Listener.Sched] Listener.init))
    = (Listener.Ended, true, 1%nat) ∧
  Listener.observable
    (Listener.run ([Listener.Sched] ++ Listener.Deliver Listener.SIGTERM :: [Listener.Sched])
       (Listener.step
          (Listener.run [Listener.Sched; Listener.Sched; Listener.Sched] Listener.init)
          (Listener.Deliver Listener.Interrupt)))
    = (Listener.Ended, true, 1%nat).
Proof.
  destruct (listener_cancels_once [Listener.Sched; Listener.Sched; Listener.Sched])
    as (_ & _ & _ & Hrecv & _ & _ & Hsecond).
  split; [reflexivity|]. split.
  - apply Hrecv; [reflexivity | right; reflexivity].
  - rewrite Hsecond; [reflexivity | left; reflexivity | left; reflexivity
                     | right; reflexivity].
Defined.

Lemma serve_after_run_witness :
  Run Stub.K [Stub.OServer "collector:1337"; Stub.OKey "key"; Stub.OName "agent-1";
              Stub.ODataDir "~/.honeytrap-agent"; Stub.OToken] = Some None ∧
  ∃ st', serve Stub.K (Stub.start Stub.args_plain) = (st', Some None) ∧
    CRun Stub.K ∈ drop (length (calls (Stub.start Stub.args_plain))) (calls st') ∧
    exit_status (Returned None) = Some 0.
Proof.
  split; [reflexivity|].
  destruct (serve_after_run Stub.K (Stub.start Stub.args_plain)) as [_ Hret].
  destruct (Hret (Stub.ODataDir "~/.honeytrap-agent")
              [Stub.OServer "collector:1337"; Stub.OKey "key"; Stub.OName "agent-1";
               Stub.ODataDir "~/.honeytrap-agent"; Stub.OToken]
              None)
    as (st' & Hs & Hin & He);
    [by_computation | by_computation | by_computation | by_computation
    | vm_compute; reflexivity | vm_compute; reflexivity | reflexivity |].
  exists st'. split; [exact Hs|]. split; [exact Hin | exact He].
Defined.


(** * Further properties of [serve] *)

Section ServeMore.

Variable K : Collab.

Ltac absent := rewrite ?elem_of_app, ?elem_of_cons, ?elem_of_nil; intuition discriminate.

(** The seven ways through [serve], each with the calls it makes. *)
Lemma serve_shape (st : State K) :
  ∃ cs r, serve K st = (MkState (flagSet st) (calls st ++ cs), r) ∧
    ((∃ e, r = Some (Some e) ∧ exitCode e = 1 ∧
        (CWithCancel K ∉ cs) ∧ (CGo K ∉ cs) ∧ (CRun K ∉ cs) ∧
        (∀ n v, CSet K n v ∉ cs) ∧ (∀ p, COpen K p ∉ cs)) ∨
     (∃ fn srvr,
        server_of st ≠ "" ∧ key_of st ≠ "" ∧ name_of st ≠ "" ∧ data_of st ≠ "" ∧
        WithDataDir K (data_of st) = inl fn ∧
        server_New K (options_of st fn) = inl srvr ∧
        cs = calls_to_datadir st ++
               [CWithToken K; CNew K (options_of st fn); CWithCancel K; CGo K; CRun K] ∧
        r = match Run K srvr with Some _ => Some None | None => None end)).
Proof.
  destruct (decide (server_of st = "")) as [H1|H1].
  { do 2 eexists. split; [by apply serve_no_server|]. left.
    eexists. split; [done|]. repeat split; try done; intros; absent. }
  destruct (decide (key_of st = "")) as [H2|H2].
  { do 2 eexists. split; [by apply serve_no_key|]. left.
    eexists. split; [done|]. repeat split; try done; intros; absent. }
  destruct (decide (name_of st = "")) as [H3|H3].
  { do 2 eexists. split; [by apply serve_no_name|]. left.
    eexists. split; [done|]. repeat split; try done; intros; absent. }
  destruct (decide (data_of st = "")) as [H4|H4].
  { do 2 eexists. split; [by apply serve_no_data|]. left.
    eexists. split; [done|]. repeat split; try done; intros; absent. }
  destruct (WithDataDir K (data_of st)) as [fn|err] eqn:Hd.
  - destruct (server_New K (options_of st fn)) as [srvr|err] eqn:Hn.
    + do 2 eexists. split; [by apply (serve_runs K st fn srvr)|]. right.
      exists fn, srvr. done.
    + do 2 eexists. split; [by apply (serve_new_fails K st fn err)|]. left.
      eexists. split; [done|]. unfold calls_to_datadir.
      repeat split; try done; intros; absent.
  - do 2 eexists. split; [by apply serve_datadir_fails|]. left.
    eexists. split; [done|]. unfold calls_to_datadir.
    repeat split; try done; intros; absent.
Qed.

(** X1. When the four values are valid but [server.New] returns an error,
    [serve] returns an exit error of code 1 whose message is the text of that
    error; [server.New] is the last call it made, so no context is created, no
    goroutine started and [Run] is not called. *)
Theorem serve_construction_error (st : State K) (fn : OptionFn K) (err : error K) :
  server_of st ≠ "" → key_of st ≠ "" → name_of st ≠ "" → data_of st ≠ "" →
  WithDataDir K (data_of st) = inl fn →
  server_New K (options_of st fn) = inr err →
  ∃ cs,
    serve K st = (MkState (flagSet st) (calls st ++ cs),
                  Some (Some (NewExitError (Error K err) 1))) ∧
    last cs = Some (CNew K (options_of st fn)) ∧
    (CWithCancel K ∉ cs) ∧ (CGo K ∉ cs) ∧ (CRun K ∉ cs).
Proof.
  intros H1 H2 H3 H4 Hd Hn. eexists.
  split; [by apply (serve_new_fails K st fn err)|].
  split; [by rewrite last_app|]. unfold calls_to_datadir.
  repeat split; absent.
Qed.

(** X2. [serve] only reads the flag set: on every path the flag set it
    leaves is the one it found, the calls it made are appended to the log,
    and among them there is no assignment to a flag and no file open. *)
Theorem serve_keeps_flags (st st' : State K) (r : option (option ExitError)) :
  serve K st = (st', r) →
  flagSet st' = flagSet st ∧
  ∃ cs, calls st' = calls st ++ cs ∧
    (∀ n v, CSet K n v ∉ cs) ∧ (∀ p, COpen K p ∉ cs).
Proof.
  intros Hs. destruct (serve_shape st) as (cs & r' & Heq & Hcase).
  rewrite Heq in Hs. simplify_eq. simpl. split; [done|]. exists cs. split; [done|].
  destruct Hcase as [(e & _ & _ & _ & _ & _ & Hset & Hopen)|
                     (fn & srvr & _ & _ & _ & _ & _ & _ & -> & _)]; [done|].
  unfold calls_to_datadir. split; intros; absent.
Qed.

(** X3. Every error [serve] returns carries exit code 1, and whenever it
    returns one the cancellation context was not created, the signal
    goroutine was not started and [Run] was not called: a failed start leaves
    nothing running. *)
Theorem serve_error_before_start (st st' : State K) (e : ExitError) :
  serve K st = (st', Some (Some e)) →
  exitCode e = 1 ∧
  ∃ cs, calls st' = calls st ++ cs ∧
    (CWithCancel K ∉ cs) ∧ (CGo K ∉ cs) ∧ (CRun K ∉ cs).
Proof.
  intros Hs. destruct (serve_shape st) as (cs & r' & Heq & Hcase).
  rewrite Heq in Hs. simplify_eq.
  destruct Hcase as [(e' & He & Hc & H1 & H2 & H3 & _)|
                     (fn & srvr & _ & _ & _ & _ & _ & _ & _ & Hr)].
  - simplify_eq. split; [done|]. exists cs. done.
  - destruct (Run K srvr); done.
Qed.

(** X4. [Run] is called only at the very end and after everything else:
    if [serve] called [Run], or did not return, then the four values were
    non-empty, [server.New] had succeeded on the five options, and the calls
    end with: token option, [server.New], context creation, start of the
    signal goroutine, [Run], in this order, each made once.  [serve] fails to
    return exactly when that call of [Run] does not return. *)
Theorem serve_run_is_last (st st' : State K) (r : option (option ExitError)) :
  serve K st = (st', r) →
  (CRun K ∈ drop (length (calls st)) (calls st') ∨ r = None) →
  ∃ fn srvr,
    server_of st ≠ "" ∧ key_of st ≠ "" ∧ name_of st ≠ "" ∧ data_of st ≠ "" ∧
    WithDataDir K (data_of st) = inl fn ∧
    server_New K (options_of st fn) = inl srvr ∧
    calls st' = calls st ++ calls_to_datadir st ++
      [CWithToken K; CNew K (options_of st fn); CWithCancel K; CGo K; CRun K] ∧
    (r = None ↔ Run K srvr = None).
Proof.
  intros Hs Hrun. destruct (serve_shape st) as (cs & r' & Heq & Hcase).
  rewrite Heq in Hs. simplify_eq. simpl in Hrun. rewrite drop_app_length in Hrun.
  destruct Hcase as [(e' & -> & _ & _ & _ & Hno & _)|
                     (fn & srvr & H1 & H2 & H3 & H4 & Hd & Hn & -> & ->)].
  - destruct Hrun; done.
  - exists fn, srvr. repeat split; try done; destruct (Run K srvr); done.
Qed.

Lemma serve_agrees (st1 st2 : State K) :
  server_of st1 = server_of st2 → key_of st1 = key_of st2 →
  name_of st1 = name_of st2 → data_of st1 = data_of st2 →
  ∃ cs r,
    serve K st1 = (MkState (flagSet st1) (calls st1 ++ cs), r) ∧
    serve K st2 = (MkState (flagSet st2) (calls st2 ++ cs), r).
Proof.
  intros E1 E2 E3 E4.
  destruct (decide (server_of st1 = "")) as [H1|H1].
  { do 2 eexists. split; [by apply serve_no_server|].
    apply serve_no_server. by rewrite <- E1. }
  destruct (decide (key_of st1 = "")) as [H2|H2].
  { do 2 eexists. split; [by apply serve_no_key|].
    rewrite E1. apply serve_no_key; by rewrite <- ?E1, <- ?E2. }
  destruct (decide (name_of st1 = "")) as [H3|H3].
  { do 2 eexists. split; [by apply serve_no_name|].
    rewrite E1, E2. apply serve_no_name; by rewrite <- ?E1, <- ?E2, <- ?E3. }
  destruct (decide (data_of st1 = "")) as [H4|H4].
  { do 2 eexists. split; [by apply serve_no_data|].
    rewrite E1, E2, E3. apply serve_no_data; by rewrite <- ?E1, <- ?E2, <- ?E3, <- ?E4. }
  assert (calls_to_datadir st1 = calls_to_datadir st2) as Ec
    by (unfold calls_to_datadir; by rewrite E1, E2, E3, E4).
  assert (∀ fn, options_of st1 fn = options_of st2 fn) as Eo
    by (intros fn; unfold options_of; by rewrite E1, E2, E3).
  destruct (WithDataDir K (data_of st1)) as [fn|err] eqn:Hd.
  - destruct (server_New K (options_of st1 fn)) as [srvr|err] eqn:Hn.
    + do 2 eexists. split; [by apply (serve_runs K st1 fn srvr)|].
      rewrite Ec, Eo. apply serve_runs; by rewrite <- ?E1, <- ?E2, <- ?E3, <- ?E4, <- ?Eo.
    + do 2 eexists. split; [by apply (serve_new_fails K st1 fn err)|].
      rewrite Ec, Eo. apply serve_new_fails; by rewrite <- ?E1, <- ?E2, <- ?E3, <- ?E4, <- ?Eo.
  - do 2 eexists. split; [by apply serve_datadir_fails|].
    rewrite Ec. apply serve_datadir_fails; by rewrite <- ?E1, <- ?E2, <- ?E3, <- ?E4.
Qed.

(** X5. [serve] looks at nothing but the four values: two states that agree
    on server, remote key, name and data directory make it perform the same
    calls and return the same result, whatever else their flag sets hold. *)
Theorem serve_depends_on_four (st1 st2 : State K) :
  server_of st1 = server_of st2 → key_of st1 = key_of st2 →
  name_of st1 = name_of st2 → data_of st1 = data_of st2 →
  ∃ cs r,
    serve K st1 = (MkState (flagSet st1) (calls st1 ++ cs), r) ∧
    serve K st2 = (MkState (flagSet st2) (calls st2 ++ cs), r).
Proof. apply serve_agrees. Qed.

End ServeMore.

(** * Further properties of [loadConfig] *)

Section LoadConfigMore.

Variable K : Collab.

(** The effect of [c.Set(n, v)] on the flag set: assigned when [n] is
    defined, left alone otherwise. *)
Local Abbreviation set_or_keep n v s := (default s (flag_Set n v s)).

Lemma set_or_keep_lookup_ne (n m v : string) (s : gmap string string) :
  n ≠ m → set_or_keep n v s !! m = s !! m.
Proof.
  intros Hne. unfold flag_Set. destruct (s !! n); simpl; [|done].
  by rewrite lookup_insert_ne.
Qed.

Lemma set_or_keep_lookup_eq (n v : string) (s : gmap string string) :
  set_or_keep n v s !! n = match s !! n with Some _ => Some v | None => None end.
Proof.
  unfold flag_Set. destruct (s !! n) eqn:E; simpl; [|done].
  by rewrite lookup_insert_eq.
Qed.

(** The flag set left by the four assignments of [loadConfig]. *)
Local Abbreviation overlay cfg s :=
  (set_or_keep "name" (Name cfg) (set_or_keep "data" (DataDir cfg)
     (set_or_keep "remote-key" (RemoteKey cfg) (set_or_keep "server" (Server cfg) s)))).

Lemma loadConfig_applies (st : State K) text cfg :
  lookupString "config" (flagSet st) ≠ "" →
  os_Open K (lookupString "config" (flagSet st)) = inl text →
  DecodeReader K text config_zero = (cfg, None) →
  loadConfig K st =
    (MkState (overlay cfg (flagSet st))
       (calls st ++ [CLookup K "config"; COpen K (lookupString "config" (flagSet st));
                     CDecode K text; CSet K "server" (Server cfg);
                     CSet K "remote-key" (RemoteKey cfg); CSet K "data" (DataDir cfg);
                     CSet K "name" (Name cfg); CClose K]),
     Some None).
Proof.
  intros Hc Ho Hd. run_hook. case_decide; [done|].
  rewrite Ho. simpl. rewrite Hd. simpl. by rewrite <- !(assoc_L (++)).
Qed.

Ltac absent := rewrite ?elem_of_app, ?elem_of_cons, ?elem_of_nil; intuition discriminate.

(** X6. [loadConfig] opens at most one file, and closes it exactly when the
    open succeeded: with no config path it neither opens nor closes; when the
    open fails the failed open is its last call and nothing is closed; when
    the open succeeds the close is its last call, made once, on the decode
    error path as well as on success. *)
Theorem loadConfig_closes_what_it_opens (st st' : State K) (r : option (option ExitError)) :
  loadConfig K st = (st', r) →
  ∃ cs, calls st' = calls st ++ cs ∧
    (((∀ p, COpen K p ∉ cs) ∧ (CClose K ∉ cs)) ∨
     (∃ p err, os_Open K p = inr err ∧ cs = [CLookup K "config"; COpen K p]) ∨
     (∃ p text mid,
        os_Open K p = inl text ∧
        cs = [CLookup K "config"; COpen K p] ++ mid ++ [CClose K] ∧
        (CClose K ∉ mid) ∧ (∀ q, COpen K q ∉ mid))).
Proof.
  intros Hl.
  destruct (decide (lookupString "config" (flagSet st) = "")) as [Hc|Hc].
  { rewrite (loadConfig_no_path K st Hc) in Hl. simplify_eq. eexists. split; [done|].
    left. split; intros; absent. }
  destruct (os_Open K (lookupString "config" (flagSet st))) as [text|err] eqn:Ho.
  - destruct (DecodeReader K text config_zero) as [cfg [err|]] eqn:Hd.
    + rewrite (loadConfig_parse_fails K st text cfg err Hc Ho Hd) in Hl.
      simplify_eq. eexists. split; [done|]. right. right.
      exists (lookupString "config" (flagSet st)), text, [CDecode K text].
      repeat split; try done; intros; absent.
    + rewrite (loadConfig_applies st text cfg Hc Ho Hd) in Hl.
      simplify_eq. eexists. split; [done|]. right. right.
      exists (lookupString "config" (flagSet st)), text,
        [CDecode K text; CSet K "server" (Server cfg);
         CSet K "remote-key" (RemoteKey cfg); CSet K "data" (DataDir cfg);
         CSet K "name" (Name cfg)].
      repeat split; try done; intros; absent.
  - rewrite (loadConfig_open_fails K st err Hc Ho) in Hl.
    simplify_eq. eexists. split; [done|]. right. left. eauto.
Qed.

(** X7. [loadConfig] touches only the entries [server], [remote-key],
    [data] and [name]: every other entry, the [config] path and the short
    spellings among them, keeps its value, and no name is added to or removed
    from the flag set. *)
Theorem loadConfig_touches_four (st st' : State K) (r : option (option ExitError)) :
  loadConfig K st = (st', r) →
  (∀ m, m ∉ ["server"; "remote-key"; "data"; "name"] →
        flagSet st' !! m = flagSet st !! m) ∧
  (∀ m, is_Some (flagSet st' !! m) ↔ is_Some (flagSet st !! m)).
Proof.
  intros Hl.
  destruct (decide (lookupString "config" (flagSet st) = "")) as [Hc|Hc].
  { rewrite (loadConfig_no_path K st Hc) in Hl. by simplify_eq. }
  destruct (os_Open K (lookupString "config" (flagSet st))) as [text|err] eqn:Ho.
  - destruct (DecodeReader K text config_zero) as [cfg [err|]] eqn:Hd.
    + rewrite (loadConfig_parse_fails K st text cfg err Hc Ho Hd) in Hl. by simplify_eq.
    + rewrite (loadConfig_applies st text cfg Hc Ho Hd) in Hl. simplify_eq. simpl. split.
      * intros m Hm. rewrite !not_elem_of_cons in Hm. destruct Hm as (? & ? & ? & ? & _).
        by rewrite !set_or_keep_lookup_ne.
      * intros m.
        assert (∀ n v (s : gmap string string),
                  is_Some (set_or_keep n v s !! m) ↔ is_Some (s !! m)) as Hone.
        { intros n v s. destruct (decide (n = m)) as [->|Hne].
          - rewrite set_or_keep_lookup_eq. destruct (s !! m); [|done].
            split; intros _; by eexists.
          - by rewrite set_or_keep_lookup_ne. }
        by rewrite !Hone.
  - rewrite (loadConfig_open_fails K st err Hc Ho) in Hl. by simplify_eq.
Qed.

End LoadConfigMore.

(** * The two spellings of a flag *)

Lemma normalizeFlags_other vis flags : ∀ (s set : gmap string string) m,
  normalizeFlags vis flags s = Some set → m ∉ all_names flags → set !! m = s !! m.
Proof.
  induction flags as [|f flags IH]; intros s set m Hn Hm; simpl in Hn.
  - by simplify_eq.
  - destruct (normalizeFlag vis f s) as [s1|] eqn:Hf; [|done].
    unfold all_names in Hm. rewrite bind_cons in Hm. apply not_elem_of_app in Hm as [Hm1 Hm2].
    rewrite (IH _ _ m Hn Hm2). by apply (normalizeFlag_other vis f).
Qed.

Lemma normalizeFlag_pair vis f (s s1 : gmap string string) l sh :
  normalizeFlag vis f s = Some s1 → Names f = [l; sh] →
  ¬ (l ∈ vis ∧ sh ∈ vis) ∧
  lookupString l s1 = (if decide (l ∈ vis) then lookupString l s
                       else if decide (sh ∈ vis) then lookupString sh s
                       else lookupString l s) ∧
  lookupString sh s1 = (if decide (l ∈ vis) then lookupString l s
                        else if decide (sh ∈ vis) then lookupString sh s
                        else lookupString sh s).
Proof.
  unfold normalizeFlag. intros Hn Hnames. rewrite Hnames in Hn.
  rewrite !filter_cons, filter_nil in Hn.
  repeat case_decide; simplify_eq; simpl; (split; [tauto|]);
    rewrite ?lookupString_insert; repeat case_decide; simplify_eq; done.
Qed.

Lemma normalizeFlags_pair vis flags : ∀ (s set : gmap string string) f l sh,
  normalizeFlags vis flags s = Some set →
  NoDup (all_names flags) → f ∈ flags → Names f = [l; sh] →
  ¬ (l ∈ vis ∧ sh ∈ vis) ∧
  lookupString l set = (if decide (l ∈ vis) then lookupString l s
                        else if decide (sh ∈ vis) then lookupString sh s
                        else lookupString l s) ∧
  lookupString sh set = (if decide (l ∈ vis) then lookupString l s
                         else if decide (sh ∈ vis) then lookupString sh s
                         else lookupString sh s).
Proof.
  induction flags as [|g flags IH]; intros s set f l sh Hn Hnd Hf Hnames.
  { by apply elem_of_nil in Hf. }
  simpl in Hn. destruct (normalizeFlag vis g s) as [s1|] eqn:Hg; [|done].
  unfold all_names in Hnd. rewrite bind_cons in Hnd.
  apply NoDup_app in Hnd as (Hg_nd & Hdisj & Hrest).
  apply elem_of_cons in Hf as [->|Hf].
  - destruct (normalizeFlag_pair _ _ _ _ _ _ Hg Hnames) as (Hboth & Hl & Hs).
    assert ((l ∉ all_names flags) ∧ (sh ∉ all_names flags)) as [Hl' Hs'].
    { split; apply Hdisj; rewrite Hnames, !elem_of_cons; tauto. }
    unfold lookupString at 1 5.
    rewrite (normalizeFlags_other _ _ _ _ l Hn Hl').
    rewrite (normalizeFlags_other _ _ _ _ sh Hn Hs'). done.
  - assert (l ∈ all_names flags ∧ sh ∈ all_names flags) as [Hl' Hs'].
    { unfold all_names. split; apply list_elem_of_bind; exists f;
        (split; [rewrite Hnames, !elem_of_cons; tauto | done]). }
    assert ((l ∉ Names g) ∧ (sh ∉ Names g)) as [Hlg Hsg].
    { split; intros Hin; by eapply Hdisj. }
    destruct (IH s1 set f l sh Hn Hrest Hf Hnames) as (Hboth & Hl & Hs).
    unfold lookupString in Hl, Hs.
    rewrite (normalizeFlag_other _ _ _ _ l Hg Hlg) in Hl, Hs.
    rewrite (normalizeFlag_other _ _ _ _ sh Hg Hsg) in Hl, Hs. done.
Qed.

Lemma New_Flags_NoDup : NoDup (all_names New_Flags).
Proof. apply (bool_decide_unpack _). vm_compute. exact I. Qed.

Lemma New_Flags_pair f :
  f ∈ New_Flags →
  ∃ l sh, Names f = [l; sh] ∧
    flagSet_of New_Flags !! l = Some (Value f) ∧
    flagSet_of New_Flags !! sh = Some (Value f).
Proof.
  unfold New_Flags. rewrite !elem_of_cons, elem_of_nil.
  intros [-> | [-> | [-> | [-> | [-> | []]]]]]; simpl;
    do 2 eexists; (split; [reflexivity|]); split; vm_compute; reflexivity.
Qed.

Lemma parse_args_pair (args : list (string * string))
    (set : gmap string string) (f : StringFlag) :
  parse_args args = Some set → f ∈ New_Flags →
  ∃ l sh, Names f = [l; sh] ∧
    lookupString l set = default (Value f) (flag_given l sh args) ∧
    lookupString sh set = lookupString l set ∧
    ¬ (l ∈ args.*1 ∧ sh ∈ args.*1).
Proof.
  unfold parse_args. intros Hp Hf.
  destruct (flag_Parse args (flagSet_of New_Flags) []) as [[s1 vis]|] eqn:Hfp; [|done].
  destruct (New_Flags_pair f Hf) as (l & sh & Hnames & Il & Ish).
  exists l, sh. split; [done|].
  destruct (normalizeFlags_pair _ _ _ _ _ _ _ Hp New_Flags_NoDup Hf Hnames)
    as (Hboth & Hl & Hs).
  destruct (flag_Parse_lookup _ _ _ _ _ l Hfp (mk_is_Some _ _ Il)) as [L1 V1].
  destruct (flag_Parse_lookup _ _ _ _ _ sh Hfp (mk_is_Some _ _ Ish)) as [L2 V2].
  rewrite elem_of_nil in V1, V2.
  rewrite Hl, Hs. unfold lookupString, flag_given. rewrite L1, L2, Il, Ish.
  split; [|split; [|tauto]].
  - repeat case_decide.
    + destruct (last_assign_is_Some l args) as [v Hv]; [tauto|]. by rewrite Hv.
    + rewrite (last_assign_None l args); [|tauto].
      destruct (last_assign_is_Some sh args) as [v Hv]; [tauto|]. by rewrite Hv.
    + rewrite (last_assign_None l args); [|tauto].
      rewrite (last_assign_None sh args); [|tauto]. done.
  - repeat case_decide; try done.
    rewrite (last_assign_None l args); [|tauto].
    rewrite (last_assign_None sh args); [|tauto]. done.
Qed.

(** X9. For every flag [New] declares, on a command line that parses: the
    long and the short spelling hold the same value, which is what the user
    passed for the flag under either spelling (the last time, if repeated)
    and the declared default when it was not passed; and the command line did
    not use both spellings of the flag. *)
Theorem parse_args_spellings (args : list (string * string))
    (set : gmap string string) (f : StringFlag) :
  parse_args args = Some set → f ∈ New_Flags →
  ∃ l sh, Names f = [l; sh] ∧
    lookupString l set = default (Value f) (flag_given l sh args) ∧
    lookupString sh set = lookupString l set ∧
    ¬ (l ∈ args.*1 ∧ sh ∈ args.*1).
Proof. apply parse_args_pair. Qed.

(** * The whole run *)

Section AppRunMore.

Variable K : Collab.

Ltac absent := rewrite ?elem_of_app, ?elem_of_cons, ?elem_of_nil; intuition discriminate.

Lemma App_Run_after_loadConfig args set st1 st2 r :
  parse_args args = Some set →
  loadConfig K (MkState set []) = (st1, Some None) →
  serve K st1 = (st2, r) →
  App_Run K args = (st2, match r with Some e => Returned e | None => Serving end).
Proof. intros Hp Hl Hs. unfold App_Run. rewrite Hp, Hl, Hs. by destruct r. Qed.



(** The five values a parsed command line leaves under the long names. *)
Lemma parse_args_values (args : list (string * string)) (set : gmap string string) :
  parse_args args = Some set →
  lookupString "config" set = default "" (flag_given "config" "f" args) ∧
  lookupString "server" set = default "" (flag_given "server" "s" args) ∧
  lookupString "remote-key" set = default "" (flag_given "remote-key" "k" args) ∧
  lookupString "data" set = default "~/.honeytrap-agent" (flag_given "data" "d" args) ∧
  lookupString "name" set = default "" (flag_given "name" "n" args).
Proof.
  intros Hp.
  assert (∀ i f, New_Flags !! i = Some f →
            ∃ l sh, Names f = [l; sh] ∧
              lookupString l set = default (Value f) (flag_given l sh args)) as Hat.
  { intros i f Hi.
    destruct (parse_args_pair args set f Hp (list_elem_of_lookup_2 _ _ _ Hi))
      as (l & sh & Hn & Hv & _). eauto. }
  destruct (Hat 0%nat _ eq_refl) as (? & ? & [= <- <-] & H0).
  destruct (Hat 1%nat _ eq_refl) as (? & ? & [= <- <-] & H1).
  destruct (Hat 2%nat _ eq_refl) as (? & ? & [= <- <-] & H2).
  destruct (Hat 3%nat _ eq_refl) as (? & ? & [= <- <-] & H3).
  destruct (Hat 4%nat _ eq_refl) as (? & ? & [= <- <-] & H4).
  done.
Qed.

(** X12. Without a config file the agent is built from what the user passed:
    for a command line made of assignments to the flags [New] declares, that
    parses, when no config path is given and the values passed for server,
    remote key and name (under either spelling) are non-empty, and the data
    directory passed, or else the default [~/.honeytrap-agent], is non-empty
    and resolves, the whole run opens no file and calls [server.New] once,
    with the options made of exactly these values. *)
Theorem App_Run_from_flags (args : list (string * string)) (set : gmap string string)
    (fn : OptionFn K) :
  parse_args args = Some set →
  default "" (flag_given "config" "f" args) = "" →
  default "" (flag_given "server" "s" args) ≠ "" →
  default "" (flag_given "remote-key" "k" args) ≠ "" →
  default "" (flag_given "name" "n" args) ≠ "" →
  default "~/.honeytrap-agent" (flag_given "data" "d" args) ≠ "" →
  WithDataDir K (default "~/.honeytrap-agent" (flag_given "data" "d" args)) = inl fn →
  ∃ pre post,
    calls (fst (App_Run K args)) =
      pre ++ CNew K [WithServer K (default "" (flag_given "server" "s" args));
                     WithKey K (default "" (flag_given "remote-key" "k" args));
                     WithName K (default "" (flag_given "name" "n" args));
                     fn; WithToken K] :: post ∧
    (∀ o, CNew K o ∉ pre) ∧ (∀ o, CNew K o ∉ post) ∧
    (∀ p, COpen K p ∉ calls (fst (App_Run K args))).
Proof.
  intros Hp Hc Hv Hk Hn Hdata Hd.
  destruct (parse_args_values args set Hp) as (V0 & V1 & V2 & V3 & V4).
  rewrite <- V0 in Hc. rewrite <- V1 in *. rewrite <- V2 in *. rewrite <- V3 in *.
  rewrite <- V4 in *.
  pose proof (loadConfig_no_path K (MkState set []) Hc) as Hl. simpl in Hl.
  set (st1 := MkState set [CLookup K "config"]) in *.
  destruct (server_New K (options_of st1 fn)) as [srvr|err] eqn:Hnew.
  - pose proof (serve_runs K st1 fn srvr Hv Hk Hn Hdata Hd Hnew) as Hs.
    rewrite (App_Run_after_loadConfig _ _ _ _ _ Hp Hl Hs). simpl.
    exists ([CLookup K "config"] ++ calls_to_datadir st1 ++ [CWithToken K]),
           [CWithCancel K; CGo K; CRun K].
    split; [by rewrite <- !(assoc_L (++))|]. unfold calls_to_datadir.
    repeat split; intros; absent.
  - pose proof (serve_new_fails K st1 fn err Hv Hk Hn Hdata Hd Hnew) as Hs.
    rewrite (App_Run_after_loadConfig _ _ _ _ _ Hp Hl Hs). simpl.
    exists ([CLookup K "config"] ++ calls_to_datadir st1 ++ [CWithToken K]), [].
    split; [by rewrite <- !(assoc_L (++))|]. unfold calls_to_datadir.
    repeat split; intros; absent.
Qed.


End AppRunMore.

(** * What makes the goroutine cancel *)

Section ListenerMore.

Import Listener.

Lemma run_snoc es e st : run (es ++ [e]) st = step (run es st) e.
Proof. unfold run. by rewrite fold_left_app. Qed.

(** Only the two signals are ever registered, and whenever a signal waits in
    the buffer or the context is done, a registered interrupt or termination
    request was delivered before. *)
Lemma run_cause es :
  (∀ sig, sig ∈ registered (run es init) → sig = Interrupt ∨ sig = SIGTERM) ∧
  (s (run es init) ≠ [] ∨ cancelled (run es init) = true →
   ∃ es1 sig es2, es = es1 ++ Deliver sig :: es2 ∧
     (sig = Interrupt ∨ sig = SIGTERM) ∧ sig ∈ registered (run es1 init)).
Proof.
  induction es as [|e es [IHreg IH]] using rev_ind.
  { split; [intros sig Hin; by apply elem_of_nil in Hin|]. intros [?|?]; done. }
  rewrite run_snoc. set (st := run es init) in *.
  assert (∀ (P : Prop), P →
            (∃ es1 sig es2, es = es1 ++ Deliver sig :: es2 ∧
               (sig = Interrupt ∨ sig = SIGTERM) ∧ sig ∈ registered (run es1 init)) →
            ∃ es1 sig es2, es ++ [e] = es1 ++ Deliver sig :: es2 ∧
               (sig = Interrupt ∨ sig = SIGTERM) ∧ sig ∈ registered (run es1 init)) as Hext.
  { intros _ _ (es1 & sig & es2 & -> & Hsig & Hreg).
    exists es1, sig, (es2 ++ [e]). split; [by rewrite <- (assoc_L (++))|done]. }
  destruct e as [sig|]; simpl.
  - split.
    + intros sig'. unfold deliver. repeat case_decide; simpl; apply IHreg.
    + unfold deliver. repeat case_decide; simpl.
      * intros _. destruct (decide (s st = [])) as [Hemp|Hne].
        { exists es, sig, []. split; [done|]. split; [by apply IHreg|done]. }
        apply (Hext True I). apply IH. by left.
      * intros Hpre. apply (Hext True I). by apply IH.
      * intros Hpre. apply (Hext True I). by apply IH.
  - split.
    + intros sig'. unfold sched. destruct (at_ st); simpl; try apply IHreg.
      * rewrite elem_of_cons. intros [->|?]; [by left|by apply IHreg].
      * rewrite elem_of_cons. intros [->|?]; [by right|by apply IHreg].
      * destruct (s st); simpl; apply IHreg.
    + unfold sched. destruct (at_ st) eqn:Hat; simpl.
      * intros [?|?]; [done|]. apply (Hext True I). apply IH. by right.
      * intros Hpre. apply (Hext True I). by apply IH.
      * intros Hpre. apply (Hext True I). by apply IH.
      * destruct (s st) eqn:Hs; simpl.
        { intros Hpre. apply (Hext True I). apply IH. rewrite Hs in Hpre. done. }
        intros _. apply (Hext True I). apply IH. by left.
      * intros Hpre. apply (Hext True I). by apply IH.
Qed.

(** X14. The context is cancelled for one reason only: if it is done after
    some sequence of deliveries and goroutine steps, then an interrupt or a
    termination request was delivered at a moment when the goroutine had
    already registered for it.  So no other signal, and no signal that
    arrived before its registration, ever cancels the context. *)
Theorem listener_cancel_cause (es : list Event) :
  (cancelled (run es init) = true →
   ∃ es1 sig es2, es = es1 ++ Deliver sig :: es2 ∧
     (sig = Interrupt ∨ sig = SIGTERM) ∧ sig ∈ registered (run es1 init)) ∧
  ((∀ sig, Deliver sig ∈ es → sig ≠ Interrupt ∧ sig ≠ SIGTERM) →
   cancelled (run es init) = false ∧ cancel_calls (run es init) = 0%nat) ∧
  (∀ sig n, es = Deliver sig :: replicate n Sched →
   cancelled (run es init) = false).
Proof.
  destruct (run_cause es) as [_ Hcause].
  assert (cancelled (run es init) = true →
          ∃ es1 sig es2, es = es1 ++ Deliver sig :: es2 ∧
            (sig = Interrupt ∨ sig = SIGTERM) ∧ sig ∈ registered (run es1 init)) as H1
    by (intros Hc; apply Hcause; by right).
  split; [exact H1|]. split.
  - intros Hnone.
    assert (cancelled (run es init) = false) as Hc.
    { destruct (cancelled (run es init)) eqn:Hc; [|done].
      destruct (H1 eq_refl) as (es1 & sig & es2 & -> & Hsig & _).
      destruct (Hnone sig) as [? ?]; [|tauto].
      rewrite elem_of_app, elem_of_cons. tauto. }
    split; [done|].
    destruct (Inv_facts (run es init)) as (Hle & Hiff & _); [apply Inv_run, Inv_init|].
    destruct (decide (cancel_calls (run es init) = 1%nat)) as [H|H]; [|lia].
    apply Hiff in H. congruence.
  - intros sig n ->.
    destruct (cancelled (run (Deliver sig :: replicate n Sched) init)) eqn:Hc; [|done].
    destruct (run_cause (Deliver sig :: replicate n Sched)) as [_ Hcause'].
    destruct Hcause' as (es1 & sig' & es2 & Heq & Hsig & Hreg); [by right|].
    destruct es1 as [|e1 es1]; simpl in *.
    + by apply elem_of_nil in Hreg.
    + injection Heq as _ Hrest.
      assert (Deliver sig' ∈ replicate n Sched) as Hin
        by (rewrite Hrest, elem_of_app, elem_of_cons; tauto).
      apply elem_of_replicate in Hin as [? _]. done.
Qed.

End ListenerMore.

(** * Which documents decode *)

Section DecodeMore.

Variable K : Collab.



End DecodeMore.

(** * The further properties on concrete runs *)

Lemma serve_construction_error_witness :
  ∃ cs,
    serve Stub.K_refusing (MkState (Stub.flags_of Stub.args_plain) []) =
      (MkState (Stub.flags_of Stub.args_plain) ([] ++ cs),
       Some (Some (NewExitError "no usable address" 1))) ∧
    (CGo Stub.K_refusing ∉ cs) ∧ (CRun Stub.K_refusing ∉ cs).
Proof.
  destruct (serve_construction_error Stub.K_refusing
              (MkState (Stub.flags_of Stub.args_plain) [])
              (Stub.ODataDir "~/.honeytrap-agent") "no usable address")
    as (cs & Hs & _ & _ & Hgo & Hrun);
    [by_computation | by_computation | by_computation | by_computation
    | vm_compute; reflexivity | vm_compute; reflexivity |].
  exists cs. split; [exact Hs|]. split; [exact Hgo | exact Hrun].
Defined.

Lemma serve_keeps_flags_witness :
  flagSet (fst (serve Stub.K (Stub.start Stub.args_plain)))
    = flagSet (Stub.start Stub.args_plain).
Proof.
  destruct (serve_keeps_flags Stub.K (Stub.start Stub.args_plain)
              (fst (serve Stub.K (Stub.start Stub.args_plain)))
              (snd (serve Stub.K (Stub.start Stub.args_plain)))) as [Hf _];
    [apply surjective_pairing | exact Hf].
Defined.

Lemma serve_error_before_start_witness :
  ∃ st' e,
    serve Stub.K (Stub.start [("s", "collector:1337")]) = (st', Some (Some e)) ∧
    exitCode e = 1 ∧
    ∃ cs, calls st' = calls (Stub.start [("s", "collector:1337")]) ++ cs ∧
      (CGo Stub.K ∉ cs) ∧ (CRun Stub.K ∉ cs).
Proof.
  pose proof (serve_no_key Stub.K (Stub.start [("s", "collector:1337")])) as Hs.
  do 2 (lapply Hs; [clear Hs; intros Hs | first [by_computation | vm_compute; reflexivity]]).
  unfold missing, exit1 in Hs.
  destruct (serve_error_before_start Stub.K _ _ _ Hs) as (He & cs & Hc & _ & Hgo & Hrun).
  do 2 eexists. split; [exact Hs|]. split; [exact He|].
  exists cs. split; [exact Hc|]. split; [exact Hgo | exact Hrun].
Defined.

Lemma serve_run_is_last_witness :
  ∃ st' fn srvr,
    fst (serve Stub.K (Stub.start Stub.args_plain)) = st' ∧
    server_New Stub.K (options_of (Stub.start Stub.args_plain) fn) = inl srvr ∧
    calls st' = calls (Stub.start Stub.args_plain) ++
      calls_to_datadir (Stub.start Stub.args_plain) ++
      [CWithToken Stub.K; CNew Stub.K (options_of (Stub.start Stub.args_plain) fn);
       CWithCancel Stub.K; CGo Stub.K; CRun Stub.K].
Proof.
  pose proof (serve_runs Stub.K (Stub.start Stub.args_plain)
                (Stub.ODataDir "~/.honeytrap-agent")
                [Stub.OServer "collector:1337"; Stub.OKey "key"; Stub.OName "agent-1";
                 Stub.ODataDir "~/.honeytrap-agent"; Stub.OToken]) as Hs.
  do 6 (lapply Hs; [clear Hs; intros Hs | first [by_computation | vm_compute; reflexivity]]).
  destruct (serve_run_is_last Stub.K _ _ _ Hs)
    as (fn & srvr & _ & _ & _ & _ & _ & Hn & Hc & _).
  { left. cbn [calls]. rewrite drop_app_length.
    rewrite !elem_of_app, !elem_of_cons. tauto. }
  eexists _, fn, srvr. split; [by rewrite Hs|]. split; [exact Hn | exact Hc].
Defined.

Lemma serve_depends_on_four_witness :
  lookupString "config" (Stub.flags_of (Stub.args_plain ++ [("d", "/var/agent")])) ≠
    lookupString "config" (Stub.flags_of (Stub.args_file "agent.toml")) ∧
  ∃ cs r,
    serve Stub.K (Stub.start (Stub.args_plain ++ [("d", "/var/agent")])) =
      (MkState (flagSet (Stub.start (Stub.args_plain ++ [("d", "/var/agent")])))
         (calls (Stub.start (Stub.args_plain ++ [("d", "/var/agent")])) ++ cs), r) ∧
    serve Stub.K (Stub.start (Stub.args_file "agent.toml")) =
      (MkState (flagSet (Stub.start (Stub.args_file "agent.toml")))
         (calls (Stub.start (Stub.args_file "agent.toml")) ++ cs), r).
Proof.
  split; [by_computation|].
  apply (serve_depends_on_four Stub.K); vm_compute; reflexivity.
Defined.

Lemma loadConfig_closes_what_it_opens_witness :
  os_Open Stub.K "broken.toml" = inl "server = [" ∧
  ∃ cs, calls (fst (loadConfig Stub.K (Stub.start (Stub.args_file "broken.toml")))) =
          calls (Stub.start (Stub.args_file "broken.toml")) ++ cs ∧
        last cs = Some (CClose Stub.K).
Proof.
  split; [vm_compute; reflexivity|].
  pose proof (loadConfig_parse_fails Stub.K (Stub.start (Stub.args_file "broken.toml"))
                "server = [" config_zero "unexpected EOF") as Hl.
  do 3 (lapply Hl; [clear Hl; intros Hl | first [by_computation | vm_compute; reflexivity]]).
  destruct (loadConfig_closes_what_it_opens Stub.K _ _ _ Hl) as (cs & Hc & Hcase).
  rewrite Hl. exists cs. split; [exact Hc|].
  destruct Hcase as [[_ Hno]|[(p & err & _ & ->)|(p & text & mid & _ & -> & _)]].
  - exfalso. apply app_inv_head in Hc. subst cs. apply Hno.
    rewrite !elem_of_cons. tauto.
  - exfalso. apply app_inv_head in Hc. discriminate Hc.
  - by rewrite app_assoc, last_snoc.
Defined.

Lemma loadConfig_touches_four_witness :
  lookupString "s" (flagSet (fst (loadConfig Stub.K (Stub.start (Stub.args_file "full.toml")))))
    = "collector:1337" ∧
  lookupString "server" (flagSet (fst (loadConfig Stub.K (Stub.start (Stub.args_file "full.toml")))))
    = "a".
Proof.
  destruct (loadConfig_touches_four Stub.K (Stub.start (Stub.args_file "full.toml"))
              (fst (loadConfig Stub.K (Stub.start (Stub.args_file "full.toml"))))
              (snd (loadConfig Stub.K (Stub.start (Stub.args_file "full.toml")))))
    as [Hother _]; [apply surjective_pairing|].
  split.
  - unfold lookupString. rewrite (Hother "s"); [vm_compute; reflexivity|].
    rewrite !elem_of_cons, elem_of_nil. intuition discriminate.
  - vm_compute. reflexivity.
Defined.

Lemma parse_args_spellings_witness :
  lookupString "server" (Stub.flags_of Stub.args_plain) = "collector:1337" ∧
  ∃ l sh, [l; sh] = ["server"; "s"] ∧
    lookupString l (Stub.flags_of Stub.args_plain) = default "" (flag_given l sh Stub.args_plain) ∧
    lookupString sh (Stub.flags_of Stub.args_plain) = lookupString l (Stub.flags_of Stub.args_plain).
Proof.
  split; [vm_compute; reflexivity|].
  destruct (parse_args_spellings Stub.args_plain (Stub.flags_of Stub.args_plain)
              {| Names := ["server"; "s"]; Value := ""; Usage := "server address" |})
    as (l & sh & Hn & Hv & Hs & _);
    [apply parse_args_flags_of; by_computation
    | apply (list_elem_of_lookup_2 _ 1); reflexivity |].
  exists l, sh. split; [symmetry; exact Hn|]. split; [exact Hv | exact Hs].
Defined.


Lemma App_Run_from_flags_witness :
  ∃ pre post,
    calls (fst (App_Run Stub.K Stub.args_plain)) =
      pre ++ CNew Stub.K
               [WithServer Stub.K (default "" (flag_given "server" "s" Stub.args_plain));
                WithKey Stub.K (default "" (flag_given "remote-key" "k" Stub.args_plain));
                WithName Stub.K (default "" (flag_given "name" "n" Stub.args_plain));
                Stub.ODataDir "~/.honeytrap-agent"; WithToken Stub.K] :: post.
Proof.
  destruct (App_Run_from_flags Stub.K Stub.args_plain (Stub.flags_of Stub.args_plain)
              (Stub.ODataDir "~/.honeytrap-agent"))
    as (pre & post & Hc & _);
    [apply parse_args_flags_of; by_computation | vm_compute; reflexivity
    | by_computation | by_computation | by_computation | by_computation
    | vm_compute; reflexivity |].
  exists pre, post. exact Hc.
Defined.


Lemma listener_cancel_cause_witness :
  Listener.cancelled
    (Listener.run (Listener.Deliver Listener.Interrupt :: replicate 4 Listener.Sched)
       Listener.init) = false.
Proof.
  destruct (listener_cancel_cause
              (Listener.Deliver Listener.Interrupt :: replicate 4 Listener.Sched))
    as (_ & _ & Hearly).
  apply (Hearly Listener.Interrupt 4%nat). reflexivity.
Defined.

